(** * brewblox-devcon-spark: payload codec, datastore and command layer

    A shallow embedding of
    - [brewblox_codec_spark/codec.py] (the payload codec registry),
    - [brewblox_devcon_spark/datastore.py] (the block metadata store),
    - the command layer exercised by [test/test_commands.py],
    followed by the properties stated about them.

    Python exceptions are values of [exception]; a call that may raise
    returns a [result].  Byte strings are [list byte]; Python integers are
    [Z], lengths and positions are [N]. *)

From Stdlib Require Import ZArith NArith List Bool Lia.
From Stdlib Require Import Init.Byte Strings.Byte Strings.Ascii Strings.String.
From Equations Require Import Equations.
From stdpp Require Import gmap strings list fin_maps pretty.

Open Scope N_scope.

(** ** Exceptions and results *)

Inductive exception :=
| KeyError (arg : string)
| IndexError (msg : string)
| ValueError (msg : string)
| AssertionError (msg : string)
| DecodeError (msg : string)
| ParseError (msg : string)
| EncodeError (msg : string)
| ValidationError (msg : string)
| FramingError (msg : string).

Inductive result (A : Type) :=
| Return (a : A)
| Raise (e : exception).
Arguments Return {A} a.
Arguments Raise {A} e.

#[global] Instance result_ret : MRet result := fun A a => Return a.
#[global] Instance result_bind : MBind result := fun A B f m =>
  match m with
  | Return a => f a
  | Raise e => Raise e
  end.

Definition returns {A} (m : result A) : bool :=
  match m with Return _ => true | Raise _ => false end.

Definition raises {A} (m : result A) : bool := negb (returns m).

(** ** Bytes *)

(** [six.int2byte]: the byte with the given value (callers stay below 256). *)
Definition int2byte (n : N) : byte :=
  match Byte.of_N n with Some b => b | None => x00 end.

(** [bytes(l)] on a list of integers. *)
Fixpoint py_bytes (l : list Z) : result (list byte) :=
  match l with
  | [] => Return []
  | x :: l' =>
      if ((0 <=? x) && (x <? 256))%Z
      then bs ← py_bytes l'; Return (int2byte (Z.to_N x) :: bs)
      else Raise (ValueError "bytes must be in range(0, 256)")
  end.

(** [len(b)] *)
Definition len {A} (l : list A) : N := N.of_nat (length l).

(** [b[start:]] and [b[start:start+size]] for non-negative bounds; neither
    raises when the bounds lie beyond the end. *)
Fixpoint py_drop {A} (l : list A) (start : N) : list A :=
  match l with
  | [] => []
  | x :: l' => if start =? 0 then l else py_drop l' (N.pred start)
  end.

Fixpoint py_take {A} (l : list A) (size : N) : list A :=
  match l with
  | [] => []
  | x :: l' => if size =? 0 then [] else x :: py_take l' (N.pred size)
  end.

Definition py_slice {A} (l : list A) (start size : N) : list A :=
  py_take (py_drop l start) size.

(** ** google.protobuf.internal: varints *)

Module Varint.

(** The loop of [encoder._VarintEncoder]:
<<
    bits = value & 0x7f
    value >>= 7
    while value:
      write(six.int2byte(0x80|bits))
      bits = value & 0x7f
      value >>= 7
    return write(six.int2byte(bits))
>>
    [EncodeVarint bits value] is the loop entered with these two
    variables. *)
Equations? EncodeVarint (bits value : N) : list byte
  by wf (N.size_nat value) lt :=
  EncodeVarint bits value with N.eq_dec value 0 := {
    | left _ => [int2byte bits]
    | right _ =>
        int2byte (N.lor 0x80 bits)
          :: EncodeVarint (N.land value 0x7f) (N.shiftr value 7) }.
Proof.
  destruct value as [|p]; [congruence|].
  do 7 (destruct p as [p|p|]; simpl; try lia).
Defined.

(** [encoder._VarintBytes] *)
Definition _VarintBytes (value : N) : list byte :=
  EncodeVarint (N.land value 0x7f) (N.shiftr value 7).

Definition mask64 : N := N.ones 64.

(** The loop of [decoder._VarintDecoder(mask, result_type)], reading
    [buffer[pos]] as the head of [rest]:
<<
    while 1:
      b = six.indexbytes(buffer, pos)
      result |= ((b & 0x7f) << shift)
      pos += 1
      if not (b & 0x80):
        result &= mask
        return (result, pos)
      shift += 7
      if shift >= 64:
        raise _DecodeError('Too many bytes when decoding varint.')
>> *)
Fixpoint DecodeVarint (rest : list byte) (pos result_ shift : N)
  : result (N * N) :=
  match rest with
  | [] => Raise (IndexError "index out of range")
  | b :: rest' =>
      let result_ :=
        N.lor result_ (N.shiftl (N.land (Byte.to_N b) 0x7f) shift) in
      let pos := pos + 1 in
      if N.land (Byte.to_N b) 0x80 =? 0
      then Return (N.land result_ mask64, pos)
      else
        let shift := shift + 7 in
        if 64 <=? shift
        then Raise (DecodeError "Too many bytes when decoding varint.")
        else DecodeVarint rest' pos result_ shift
  end.

(** What the spec calls a varint, in its own words: base-128 groups with
    a continuation bit, least-significant group first.  [groups_value] is
    the number the groups denote, [continuation_framed] says that every
    byte but the last carries the continuation bit. *)
Fixpoint groups_value (bs : list byte) : N :=
  match bs with
  | [] => 0
  | b :: rest => N.land (Byte.to_N b) 0x7f + 128 * groups_value rest
  end.

Fixpoint continuation_framed (bs : list byte) : bool :=
  match bs with
  | [] => false
  | b :: rest =>
      match rest with
      | [] => Byte.to_N b <? 0x80
      | _ :: _ => (0x80 <=? Byte.to_N b) && continuation_framed rest
      end
  end.

Definition is_varint_of (bs : list byte) (n : N) : Prop :=
  continuation_framed bs = true /\ groups_value bs = n.

(** Every byte carries the continuation bit: a prefix made of such bytes
    is malformed, it never ends. *)
Definition all_continued (bs : list byte) : bool :=
  forallb (fun b => 0x80 <=? Byte.to_N b) bs.

(** [decoder._DecodeVarint(buffer, pos)] *)
Definition _DecodeVarint (buffer : list byte) (pos : N) : result (N * N) :=
  DecodeVarint (py_drop buffer pos) pos 0 0.

End Varint.

(** ** brewblox_codec_spark/codec.py *)

Module Codec.

(** A generated protobuf message class together with the [json_format]
    functions acting on it.  The generated modules [OneWireBus_pb2] and
    [OneWireTempSensor_pb2] are not part of the sources at hand, so the
    codec is stated over arbitrary message classes. *)
Record MessageClass (dict : Type) : Type := {
  message : Type;
  (** [json_format.ParseDict(values, cls())] *)
  ParseDict : dict -> result message;
  (** [obj.SerializeToString()] *)
  SerializeToString : message -> result (list byte);
  (** [obj = cls(); obj.ParseFromString(data)] *)
  ParseFromString : list byte -> result message;
  (** [json_format.MessageToDict(obj)] *)
  MessageToDict : message -> dict;
}.
Arguments message {dict} _.
Arguments ParseDict {dict} _ _.
Arguments SerializeToString {dict} _ _.
Arguments ParseFromString {dict} _ _.
Arguments MessageToDict {dict} _ _.

(** [Union[bytes, list]] *)
Inductive encoded_arg :=
| OfBytes (b : list byte)
| OfList (l : list Z).

Section Registry.
Context {dict : Type}.
Variables OneWireBus OneWireTempSensor : MessageClass dict.

(** A subclass of [ProtobufTranscoder] is determined by its [_MESSAGE]. *)
Record ProtobufTranscoder := { _MESSAGE : MessageClass dict }.

Definition ProtobufTranscoder_encode (self : ProtobufTranscoder)
    (values : dict) : result (list byte) :=
  obj ← ParseDict (_MESSAGE self) values;
  data ← SerializeToString (_MESSAGE self) obj;
  let delimiter := Varint._VarintBytes (len data) in
  Return (delimiter ++ data).

Definition ProtobufTranscoder_decode (self : ProtobufTranscoder)
    (encoded : encoded_arg) : result dict :=
  encoded ← match encoded with
            | OfList l => py_bytes l
            | OfBytes b => Return b
            end;
  '(size, position) ← Varint._DecodeVarint encoded 0;
  obj ← ParseFromString (_MESSAGE self) (py_slice encoded position size);
  Return (MessageToDict (_MESSAGE self) obj).

Definition OneWireBusTranscoder : ProtobufTranscoder :=
  {| _MESSAGE := OneWireBus |}.

Definition OneWireTempSensorTranscoder : ProtobufTranscoder :=
  {| _MESSAGE := OneWireTempSensor |}.

Definition _TYPE_MAPPING : gmap Z ProtobufTranscoder :=
  <[10%Z := OneWireBusTranscoder]>
    (<[6%Z := OneWireTempSensorTranscoder]> ∅).

Definition no_codec (obj_type : Z) : exception :=
  KeyError ("No codec found for object type [" +:+ pretty obj_type +:+ "]").

Definition _transcoder (obj_type : Z) : result ProtobufTranscoder :=
  match _TYPE_MAPPING !! obj_type with
  | Some cls => Return cls
  | None => Raise (no_codec obj_type)
  end.

Definition encode (obj_type : Z) (values : dict) : result (list byte) :=
  self ← _transcoder obj_type; ProtobufTranscoder_encode self values.

Definition decode (obj_type : Z) (encoded : encoded_arg) : result dict :=
  self ← _transcoder obj_type; ProtobufTranscoder_decode self encoded.

End Registry.

(** A small message class on which the codec can be run: one unsigned
    field [offset] with field number 1, absent when zero.  As for every
    protobuf message without required fields, the empty body parses to
    the message with no field set. *)
Module Sample.

Definition dict : Type := gmap string Z.

Definition ParseDict (values : dict) : result N :=
  match map_to_list values with
  | [] => Return 0
  | [(k, z)] =>
      if bool_decide (k = "offset"%string) && (0 <=? z)%Z && (z <? 2 ^ 64)%Z
      then Return (Z.to_N z)
      else Raise (ParseError "Failed to parse field")
  | _ => Raise (ParseError "Message has no such field")
  end.

Definition SerializeToString (obj : N) : result (list byte) :=
  Return (if obj =? 0 then [] else x08 :: Varint._VarintBytes obj).

Definition ParseFromString (data : list byte) : result N :=
  match data with
  | [] => Return 0
  | tag :: rest =>
      if Byte.eqb tag x08 then
        match Varint._DecodeVarint rest 0 with
        | Return (v, pos) =>
            if pos =? len rest then Return v
            else Raise (DecodeError "Error parsing message")
        | Raise _ => Raise (DecodeError "Truncated message.")
        end
      else Raise (DecodeError "Error parsing message")
  end.

Definition MessageToDict (obj : N) : dict :=
  if obj =? 0 then ∅ else {[ "offset"%string := Z.of_N obj ]}.

Definition Message : MessageClass dict :=
  Build_MessageClass dict N
    ParseDict SerializeToString ParseFromString MessageToDict.

Definition encode := encode Message Message.
Definition decode := decode Message Message.

End Sample.

End Codec.

(** ** brewblox_devcon_spark/datastore.py *)

Module Datastore.

Section Store.
(** The JSON values held in documents, Python's [==] on them, and the
    [str()] used by f-strings. *)
Variable value : Type.
Variable py_eq : value -> value -> bool.
Variable py_str : value -> string.

Local Abbreviation document := (gmap string value).

(** The default table of a [TinyDB]: its documents in insertion order. *)
Definition TinyDB : Type := list document.

(** A function run against the database: it may mutate the database and
    either returns or raises; what was mutated before a raise stays
    mutated. *)
Definition DB_FUNC_TYPE_ (A : Type) : Type := TinyDB -> result A * TinyDB.

Definition db_bind {A B} (m : DB_FUNC_TYPE_ A) (f : A -> DB_FUNC_TYPE_ B)
  : DB_FUNC_TYPE_ B :=
  fun db =>
    match m db with
    | (Return a, db') => f a db'
    | (Raise e, db') => (Raise e, db')
    end.

Definition db_lift {A} (r : result A) : DB_FUNC_TYPE_ A := fun db => (r, db).

(** [Query()[id_key] == id_val] as a test on documents: a document
    without the key does not match. *)
Definition Query_eq (id_key : string) (rhs : value) (doc : document) : bool :=
  match doc !! id_key with
  | Some v => py_eq v rhs
  | None => false
  end.

Definition db_all : DB_FUNC_TYPE_ (list document) :=
  fun db => (Return db, db).

Definition db_purge : DB_FUNC_TYPE_ unit :=
  fun _ => (Return tt, []).

Definition db_search (cond : document -> bool) : DB_FUNC_TYPE_ (list document) :=
  fun db => (Return (List.filter cond db), db).

Definition db_contains (cond : document -> bool) : DB_FUNC_TYPE_ bool :=
  fun db => (Return (existsb cond db), db).

Definition db_insert (obj : document) : DB_FUNC_TYPE_ unit :=
  fun db => (Return tt, db ++ [obj]).

(** The ids TinyDB gives to documents: a table filled through this module
    alone (it inserts and purges, it never removes one document) numbers
    its documents 1, 2, ... in insertion order, so the id of a document is
    its position plus one. *)
Definition next_id (db : TinyDB) : N := len db + 1.

(** [db.insert(obj)] with its result, the id of the new document. *)
Definition db_insert_id (obj : document) : DB_FUNC_TYPE_ N :=
  fun db => (Return (next_id db), db ++ [obj]).

(** [db.insert_multiple(objects)]: the documents are added in order; the
    result is the list of their ids. *)
Definition db_insert_multiple (objects : list document)
  : DB_FUNC_TYPE_ (list N) :=
  fun db =>
    (Return (imap (fun i _ => next_id db + N.of_nat i) objects),
     db ++ objects).

(** [db.count(cond)] *)
Definition db_count (cond : document -> bool) : DB_FUNC_TYPE_ N :=
  fun db => (Return (len (List.filter cond db)), db).

(** The ids of the documents of [db] that match, [first] being the id of
    its first document. *)
Fixpoint ids_where (cond : document -> bool) (db : TinyDB) (first : N)
  : list N :=
  match db with
  | [] => []
  | doc :: db' =>
      if cond doc then first :: ids_where cond db' (first + 1)
      else ids_where cond db' (first + 1)
  end.

(** [db.update(fields, cond)]: every document that matches gets
    [doc.update(fields)], the fields given overriding its own; the result
    is the list of the ids of these documents. *)
Definition db_update (fields : document) (cond : document -> bool)
  : DB_FUNC_TYPE_ (list N) :=
  fun db =>
    (Return (ids_where cond db 1),
     (fun doc => if cond doc then fields ∪ doc else doc) <$> db).

(** [db.upsert(document, cond)]:
<<
    updated = self.update(document, cond)
    if updated: return updated
    else: return [self.insert(document)]
>> *)
Definition db_upsert (obj : document) (cond : document -> bool)
  : DB_FUNC_TYPE_ (list N) :=
  db_bind (db_update obj cond) (fun updated =>
  match updated with
  | _ :: _ => db_lift (Return updated)
  | [] => db_bind (db_insert_id obj) (fun id => db_lift (Return [id]))
  end).

(** [obj[key]] *)
Definition getitem (obj : document) (key : string) : result value :=
  match obj !! key with
  | Some v => Return v
  | None => Raise (KeyError key)
  end.

(** [assert cond, msg] *)
Definition py_assert (cond : bool) (msg : string) : result unit :=
  if cond then Return tt else Raise (AssertionError msg).

(** [MemoryDataStore]: [_do_with_db] is [return func(self._db)], which is
    also the behaviour the base class asks of every override. *)
Record MemoryDataStore := { _db : TinyDB }.

Definition _do_with_db {A} (func : DB_FUNC_TYPE_ A) (self : MemoryDataStore)
  : result A * MemoryDataStore :=
  let '(r, db') := func (_db self) in (r, {| _db := db' |}).

Definition all := _do_with_db db_all.

Definition purge := _do_with_db db_purge.

Definition find_by_key (id_key : string) (id_val : value) :=
  _do_with_db (db_search (Query_eq id_key id_val)).

Definition insert (obj : document) := _do_with_db (db_insert_id obj).

Definition insert_multiple (objects : list document) :=
  _do_with_db (db_insert_multiple objects).

(** [[await store.insert(obj) for obj in objects]]: the documents inserted
    one after the other, with the results of the calls. *)
Fixpoint insert_each (objects : list document) (self : MemoryDataStore)
  : list (result N) * MemoryDataStore :=
  match objects with
  | [] => ([], self)
  | obj :: objects' =>
      let '(r, self1) := insert obj self in
      let '(rs, self2) := insert_each objects' self1 in
      (r :: rs, self2)
  end.

(** The inner [func] of [insert_unique]:
<<
    id = obj[id_key]
    assert not db.contains(Query()[id_key] == id), f'{id} already exists'
    db.insert(obj)
>> *)
Definition insert_unique_func (id_key : string) (obj : document)
  : DB_FUNC_TYPE_ unit :=
  db_bind (db_lift (getitem obj id_key)) (fun id =>
  db_bind (db_contains (Query_eq id_key id)) (fun found =>
  db_bind (db_lift (py_assert (negb found) (py_str id +:+ " already exists")))
    (fun _ =>
  db_insert obj))).

Definition insert_unique (id_key : string) (obj : document) :=
  _do_with_db (insert_unique_func id_key obj).

Definition update (id_key : string) (id_val : value) (obj : document) :=
  _do_with_db (db_update obj (Query_eq id_key id_val)).

(** The inner [func] of [update_unique]:
<<
    query = Query()[id_key] == id_val
    assert db.count(query) <= 1, f'Multiple documents with {id_key}={id_val} exist'
    if unique_key is not None:
        unique_id = obj[unique_key]
        assert not db.contains(Query()[unique_key] == unique_id), \
            f'A document already exists with {unique_key}={unique_id}'
    db.upsert(obj, query)
>> *)
Definition update_unique_func (id_key : string) (id_val : value)
    (obj : document) (unique_key : option string) : DB_FUNC_TYPE_ unit :=
  let query := Query_eq id_key id_val in
  db_bind (db_count query) (fun count =>
  db_bind (db_lift (py_assert (count <=? 1)
             ("Multiple documents with " +:+ id_key +:+ "="
              +:+ py_str id_val +:+ " exist"))) (fun _ =>
  db_bind
    match unique_key with
    | Some unique_key =>
        db_bind (db_lift (getitem obj unique_key)) (fun unique_id =>
        db_bind (db_contains (Query_eq unique_key unique_id)) (fun found =>
        db_lift (py_assert (negb found)
                   ("A document already exists with " +:+ unique_key +:+ "="
                    +:+ py_str unique_id))))
    | None => db_lift (Return tt)
    end (fun _ =>
  db_bind (db_upsert obj query) (fun _ =>
  db_lift (Return tt))))).

Definition update_unique (id_key : string) (id_val : value) (obj : document)
    (unique_key : option string) :=
  _do_with_db (update_unique_func id_key id_val obj unique_key).

(** The check of [unique_key] in [update_unique]: the exception it raises,
    if any. *)
Definition unique_key_check (obj : document)
    (unique_key : option string) (db : TinyDB)
  : option exception :=
  match unique_key with
  | None => None
  | Some u =>
      match obj !! u with
      | None => Some (KeyError u)
      | Some uid =>
          if existsb (Query_eq u uid) db
          then Some (AssertionError
                       ("A document already exists with " +:+ u +:+ "="
                        +:+ py_str uid))
          else None
      end
  end.

(** No two documents hold equal values under [id_key]: a document's value
    is different, by the test [insert_unique] runs, from the value of every
    document stored before it. *)
Definition key_unique (id_key : string) (db : TinyDB) : Prop :=
  forall pre doc post id,
    db = pre ++ doc :: post -> doc !! id_key = Some id ->
    existsb (Query_eq id_key id) pre = false.

End Store.

(** The values of the test fixture: integers, strings and nested objects. *)
Module Fixture.

#[warnings="-register-all"]
Inductive json :=
| JInt (z : Z)
| JStr (s : string)
| JObj (fields : list (string * json)).

(** Python's [==]: two dicts are equal when they hold the same keys with
    equal values, in whatever order the keys were inserted.  The fields of
    a [JObj] are the items of a dict in insertion order, each key once. *)
Fixpoint json_eqb (a b : json) : bool :=
  match a, b with
  | JInt x, JInt y => (x =? y)%Z
  | JStr s, JStr t => String.eqb s t
  | JObj l, JObj m =>
      (length l =? length m)%nat &&
      (fix items (l : list (string * json)) : bool :=
         match l with
         | [] => true
         | (k, v) :: l' =>
             (fix get (m : list (string * json)) : bool :=
                match m with
                | [] => false
                | (k', v') :: m' =>
                    if String.eqb k k' then json_eqb v v' else get m'
                end) m
             && items l'
         end) l
  | _, _ => false
  end.

Definition hex_char (n : N) : ascii :=
  ascii_of_N (if n <? 10 then 48 + n else 87 + n).

(** A character inside [repr] of a str delimited by [quote]: backslash
    and the delimiter are escaped, newline, carriage return and tab have
    their letters, other control characters are written in hexadecimal.
    Characters beyond ASCII are taken to be printable and kept. *)
Definition repr_char (quote c : ascii) : string :=
  let n := N_of_ascii c in
  let backslash := "092"%char in
  if n =? 92 then String backslash (String backslash EmptyString)
  else if Ascii.eqb c quote then String backslash (String c EmptyString)
  else if n =? 10 then String backslash "n"
  else if n =? 13 then String backslash "r"
  else if n =? 9 then String backslash "t"
  else if (n <? 32) || (n =? 127) then
    String backslash
      (String "x" (String (hex_char (n / 16))
         (String (hex_char (n mod 16)) EmptyString)))
  else String c EmptyString.

Fixpoint string_has (c : ascii) (s : string) : bool :=
  match s with
  | EmptyString => false
  | String c' s' => Ascii.eqb c c' || string_has c s'
  end.

Fixpoint repr_chars (quote : ascii) (s : string) : string :=
  match s with
  | EmptyString => EmptyString
  | String c s' => repr_char quote c +:+ repr_chars quote s'
  end.

(** [repr] of a str: in single quotes, unless the string holds a single
    quote and no double quote. *)
Definition str_repr (s : string) : string :=
  let quote :=
    if string_has "039"%char s && negb (string_has "034"%char s)
    then "034"%char else "039"%char in
  String quote (repr_chars quote s) +:+ String quote EmptyString.

(** [repr] and [str] on these values: [str] of a str is the string
    itself, and inside a dict keys and values are shown by [repr]. *)
Fixpoint json_repr (a : json) : string :=
  match a with
  | JInt z => pretty z
  | JStr s => str_repr s
  | JObj fields =>
      "{" +:+
      (fix items (fields : list (string * json)) : string :=
         match fields with
         | [] => EmptyString
         | [(k, v)] => str_repr k +:+ ": " +:+ json_repr v
         | (k, v) :: fields' =>
             str_repr k +:+ ": " +:+ json_repr v +:+ ", " +:+ items fields'
         end) fields
      +:+ "}"
  end.

Definition json_str (a : json) : string :=
  match a with
  | JStr s => s
  | _ => json_repr a
  end.

(** The [obj] fixture of [test_datastore.py]. *)
Definition obj : gmap string json :=
  <["service_id"%string := JStr "pancakes"]>
  (<["type"%string := JInt 6]>
  (<["obj"%string :=
       JObj [("settings"%string,
              JObj [("address"%string, JStr "KP7p/ggAABc=");
                    ("offset"%string, JInt 0)])]]> ∅)).

Definition empty_store : MemoryDataStore json := {| _db := [] |}.

(** The documents [{'id': i} for i in range(10)] of [test_update]. *)
Definition id_doc (i : Z) : gmap string json := {[ "id"%string := JInt i ]}.

Definition id_store : MemoryDataStore json :=
  {| _db := id_doc <$> [0; 1; 2; 3; 4; 5; 6; 7; 8; 9]%Z |}.

End Fixture.

End Datastore.

(** ** The command layer (brewblox_devcon_spark.commands) *)

Module Commands.

(** *** Address codec *)

Definition segment_ok (x : Z) : bool := ((0 <=? x) && (x <? 128))%Z.

(** Modelled from the spec: the module [commands] is missing from the
    sources; only its tests are at hand.  Section 4.1 asks that a path of
    one segment is written as its one value byte, that a path of several
    segments starts with a continuation marker byte, observed as [0xFF] in
    front of [0x07] for the path [[127, 7]], and that decoding inverts
    encoding; section 9 leaves the layout to a self-consistent scheme with
    these properties, and the test calls the marker a nesting flag.  The
    scheme here: one byte per segment, segments range over 0..127, and the
    high bit of a byte is the flag saying that another segment follows. *)
Fixpoint encode_address (path : list Z) : result (list byte) :=
  match path with
  | [] => Raise (ValidationError "empty object id")
  | x :: rest =>
      if segment_ok x then
        match rest with
        | [] => Return [int2byte (Z.to_N x)]
        | _ :: _ =>
            bs ← encode_address rest;
            Return (int2byte (N.lor 0x80 (Z.to_N x)) :: bs)
        end
      else Raise (ValidationError "object id segment out of range")
  end.

(** Modelled from the spec: the decoder of the address codec missing from
    the sources (section 4.1): it follows the flag until the first byte
    without it, and fails with a framing error when the bytes end before
    that.  The result is the path and the number of bytes consumed. *)
Fixpoint decode_segments (rest : list byte) : result (list Z * N) :=
  match rest with
  | [] => Raise (FramingError "truncated object id")
  | b :: rest' =>
      let v := Byte.to_N b in
      if v <? 0x80 then Return ([Z.of_N v], 1)
      else
        '(path, consumed) ← decode_segments rest';
        Return (Z.of_N (N.land v 0x7f) :: path, consumed + 1)
  end.

(** Modelled from the spec: [decode(bytes, offset)] of the address codec,
    missing from the sources (section 4.1). *)
Definition decode_address (data : list byte) (offset : N)
  : result (list Z * N) :=
  decode_segments (py_drop data offset).

(** *** Command schema table *)

(** Modelled from the spec: the values a structured request or response
    maps its field names to (section 4.3); the mappings of the missing
    module are Python dicts. *)
Inductive field_value :=
| VInt (z : Z)
| VPath (path : list Z)
| VBytes (data : list byte).

(** Modelled from the spec: the kinds of field a schema of the missing
    module is made of (sections 4.3 and 6): the one-byte opcode that opens
    every request, an unsigned byte, an object id handed to the address
    codec, and an opaque blob whose length is the value of an earlier
    field. *)
Inductive field_kind :=
| Opcode (op : byte)
| UInt8
| Address
| Blob (size_field : string).

#[global] Instance field_kind_eq_dec : EqDecision field_kind.
Proof.
  intros a b. unfold Decision.
  decide equality; [apply Byte.byte_eq_dec | apply String.string_dec].
Defined.

Definition byte_value (b : byte) : Z := Z.of_N (Byte.to_N b).

Definition schema : Type := list (string * field_kind).

Definition byte_ok (z : Z) : bool := ((0 <=? z) && (z <? 256))%Z.

(** Modelled from the spec: the [build] of one field, missing from the
    sources (section 4.3).  The opcode is the one field that may be left
    out of the mapping, as [test_command_from_encoded] builds from a
    mapping without it; every other field is required. *)
Definition build_field (kind : field_kind) (v : option field_value)
    (ctx : gmap string field_value) : result (list byte) :=
  match kind with
  | Opcode op =>
      match v with
      | None => Return [op]
      | Some (VInt z) =>
          if (z =? byte_value op)%Z then Return [op]
          else Raise (ValidationError "opcode does not match the command")
      | Some _ => Raise (ValidationError "opcode is not an integer")
      end
  | UInt8 =>
      match v with
      | Some (VInt z) =>
          if byte_ok z then Return [int2byte (Z.to_N z)]
          else Raise (ValidationError "integer out of byte range")
      | Some _ => Raise (ValidationError "field is not an integer")
      | None => Raise (ValidationError "required field missing")
      end
  | Address =>
      match v with
      | Some (VPath path) => encode_address path
      | Some _ => Raise (ValidationError "field is not an object id")
      | None => Raise (ValidationError "required field missing")
      end
  | Blob size_field =>
      match v with
      | Some (VBytes data) =>
          match ctx !! size_field with
          | Some (VInt n) =>
              if (n =? Z.of_N (len data))%Z then Return data
              else Raise (ValidationError "data length differs from size")
          | _ => Raise (ValidationError "size field missing")
          end
      | Some _ => Raise (ValidationError "field is not a byte string")
      | None => Raise (ValidationError "required field missing")
      end
  end.

(** Modelled from the spec: [build] of section 4.3, missing from the
    sources: the fields are serialized in the fixed order of the schema;
    nothing is produced when a field fails. *)
Fixpoint build_fields (fields : schema) (values : gmap string field_value)
  : result (list byte) :=
  match fields with
  | [] => Return []
  | (name, kind) :: fields' =>
      bs ← build_field kind (values !! name) values;
      rest ← build_fields fields' values;
      Return (bs ++ rest)
  end.

(** Modelled from the spec: [schema.build(values)], missing from the
    sources (section 4.3). *)
Definition build (s : schema) (values : gmap string field_value)
  : result (list byte) :=
  build_fields s values.

(** Modelled from the spec: the [parse] of one field, missing from the
    sources (section 4.3); it returns the value and the remaining bytes. *)
Definition parse_field (kind : field_kind) (data : list byte)
    (ctx : gmap string field_value) : result (field_value * list byte) :=
  match kind with
  | Opcode op =>
      match data with
      | b :: rest =>
          if Byte.eqb b op then Return (VInt (byte_value op), rest)
          else Raise (FramingError "unexpected opcode")
      | [] => Raise (FramingError "truncated frame")
      end
  | UInt8 =>
      match data with
      | b :: rest => Return (VInt (byte_value b), rest)
      | [] => Raise (FramingError "truncated frame")
      end
  | Address =>
      '(path, consumed) ← decode_address data 0;
      Return (VPath path, py_drop data consumed)
  | Blob size_field =>
      match ctx !! size_field with
      | Some (VInt n) =>
          if (Z.of_N (len data) <? n)%Z
          then Raise (FramingError "truncated frame")
          else Return (VBytes (py_take data (Z.to_N n)),
                       py_drop data (Z.to_N n))
      | _ => Raise (FramingError "size field missing")
      end
  end.

(** Modelled from the spec: [parse] of section 4.3, missing from the
    sources: the fields are read in the order of the schema into a
    mapping from field name to value. *)
Fixpoint parse_fields (fields : schema) (data : list byte)
    (ctx : gmap string field_value)
  : result (gmap string field_value * list byte) :=
  match fields with
  | [] => Return (ctx, data)
  | (name, kind) :: fields' =>
      '(v, rest) ← parse_field kind data ctx;
      parse_fields fields' rest (<[name := v]> ctx)
  end.

(** Modelled from the spec: [schema.parse(bytes)], missing from the
    sources (section 4.3); bytes behind the last field are left unread. *)
Definition parse (s : schema) (data : list byte)
  : result (gmap string field_value) :=
  '(values, _) ← parse_fields s data ∅; Return values.

(** What [parse] reports for a field whose value in the built mapping was
    [v]: the opcode of the schema, or else [v]. *)
Definition field_target (kind : field_kind) (v : option field_value)
  : option field_value :=
  match kind with
  | Opcode op => Some (VInt (byte_value op))
  | _ => v
  end.

(** A schema is well formed when its field names differ and the size of
    every blob is an unsigned byte field placed before it. *)
Fixpoint schema_wf_from (seen : gmap string field_kind) (s : schema) : bool :=
  match s with
  | [] => true
  | (name, kind) :: s' =>
      bool_decide (seen !! name = None)
      && match kind with
         | Blob size_field => bool_decide (seen !! size_field = Some UInt8)
         | _ => true
         end
      && schema_wf_from (<[name := kind]> seen) s'
  end.

Definition schema_wf (s : schema) : bool := schema_wf_from ∅ s.

(** A mapping satisfies a schema when it has no key outside the schema's
    fields and [build] accepts it. *)
Definition satisfies (s : schema) (values : gmap string field_value) : Prop :=
  map_Forall (fun k _ => k ∈ s.*1) values /\ returns (build s values) = true.

(** The mapping with the opcode of the schema filled in. *)
Fixpoint with_opcode (s : schema) (values : gmap string field_value)
  : gmap string field_value :=
  match s with
  | [] => values
  | (name, kind) :: s' =>
      match kind with
      | Opcode op => <[name := VInt (byte_value op)]> (with_opcode s' values)
      | _ => with_opcode s' values
      end
  end.

(** Modelled from the spec: the layout of a write-style request and of its
    response, missing from the sources (section 4.3):
    [{object_id, type, size, data}] behind the opcode, and
    [{errcode, type, size, data}].  The spec gives no widths; one byte
    each is assumed for [type], [size] and [errcode]. *)
Definition write_value_request : schema :=
  [("opcode"%string, Opcode x02);
   ("object_id"%string, Address);
   ("type"%string, UInt8);
   ("size"%string, UInt8);
   ("data"%string, Blob "size")].

(** Modelled from the spec: the response of a write-style command, missing
    from the sources (section 4.3). *)
Definition write_value_response : schema :=
  [("errcode"%string, UInt8);
   ("type"%string, UInt8);
   ("size"%string, UInt8);
   ("data"%string, Blob "size")].

(** *** Command index *)

(** Modelled from the spec: [CommandSpec], missing from the sources
    (section 3): name, opcode and the two schemas, a schema being absent
    when it is not populated. *)
Record CommandSpec := {
  name : string;
  opcode : Z;
  request_schema : option schema;
  response_schema : option schema;
}.

(** Section 4.4: the names of the fixed command set. *)
Definition command_names : list string :=
  ["READ_VALUE"; "WRITE_VALUE"; "CREATE_OBJECT"; "DELETE_OBJECT";
   "LIST_OBJECTS"; "FREE_SLOT"; "CREATE_PROFILE"; "DELETE_PROFILE";
   "ACTIVATE_PROFILE"; "LOG_VALUES"; "RESET"; "FREE_SLOT_ROOT";
   "LIST_PROFILES"; "READ_SYSTEM_VALUE"; "WRITE_SYSTEM_VALUE"]%string.

Definition spec_populated (c : CommandSpec) : bool :=
  negb (opcode c =? 0)%Z
  && bool_decide (is_Some (request_schema c))
  && bool_decide (is_Some (response_schema c)).

(** Modelled from the spec: [CommandIndex.identify], missing from the
    sources (section 4.4). *)
Definition identify (index : gmap string CommandSpec) (cmd_name : string)
  : result CommandSpec :=
  match index !! cmd_name with
  | Some c => Return c
  | None => Raise (KeyError cmd_name)
  end.

Section Registry.
(** Modelled from the spec: what the registry of the missing module holds
    for a command, as far as the spec leaves it open.  The spec names the
    fifteen commands and gives opcode and layout of WRITE_VALUE only.  The
    other opcodes are unknown numbers that section 4.4 requires to be
    non-zero, as [test_index] asserts of every entry; they are taken among
    the positive numbers.  The other layouts are unknown schemas. *)
Variable opcode_of : string -> positive.
Variables request_of response_of : string -> schema.

(** Modelled from the spec: the [CommandSpec] defined for a command name,
    missing from the sources (sections 3 and 4.3): WRITE_VALUE has opcode 2
    and the write-style layouts. *)
Definition command_spec (cmd_name : string) : CommandSpec :=
  if String.eqb cmd_name "WRITE_VALUE" then
    {| name := cmd_name; opcode := 2;
       request_schema := Some write_value_request;
       response_schema := Some write_value_response |}
  else
    {| name := cmd_name; opcode := Z.pos (opcode_of cmd_name);
       request_schema := Some (request_of cmd_name);
       response_schema := Some (response_of cmd_name) |}.

(** Modelled from the spec: [CommandIndex()], missing from the sources
    (section 4.4): a fixed registry, populated once with the spec of each
    of the fifteen command names, keyed by name; that every entry has a
    non-zero opcode and both schemas is checked here, once. *)
Definition CommandIndex : result (gmap string CommandSpec) :=
  let specs := command_spec <$> command_names in
  if forallb spec_populated specs
  then Return (list_to_map ((fun c => (name c, c)) <$> specs))
  else Raise (ValidationError "command without opcode or schema").

End Registry.

(** *** Command *)

(** Modelled from the spec: the state of a [Command], missing from the
    sources (section 3): its two schemas and the four representations,
    each of which may be absent. *)
Record Command := {
  request : schema;
  response : schema;
  _encoded_request : option (list byte);
  _decoded_request : option (gmap string field_value);
  _encoded_response : option (list byte);
  _decoded_response : option (gmap string field_value);
}.

(** Modelled from the spec: a command as constructed, before any input is
    given to it (section 3). *)
Definition new_command (req resp : schema) : Command :=
  {| request := req; response := resp;
     _encoded_request := None; _decoded_request := None;
     _encoded_response := None; _decoded_response := None |}.

(** Modelled from the spec: [WriteValueCommand()], missing from the
    sources, with the write-style layouts of section 4.3. *)
Definition WriteValueCommand : Command :=
  new_command write_value_request write_value_response.

(** Modelled from the spec: [Command.from_args], missing from the sources
    (section 4.5): the fields are validated and encoded at once; the
    decoded request is derived from the same fields, not from the bytes,
    and equals what parsing the encoded request gives: the fields with the
    opcode of the layout filled in. *)
Definition from_args (self : Command) (kwargs : gmap string field_value)
  : result Command :=
  encoded ← build (request self) kwargs;
  Return {| request := request self; response := response self;
            _encoded_request := Some encoded;
            _decoded_request := Some (with_opcode (request self) kwargs);
            _encoded_response := None; _decoded_response := None |}.

(** Modelled from the spec: [Command.from_decoded], missing from the
    sources (section 4.5): the mappings given are stored. *)
Definition from_decoded (self : Command)
    (req resp : option (gmap string field_value)) : Command :=
  {| request := request self; response := response self;
     _encoded_request := None; _decoded_request := req;
     _encoded_response := None; _decoded_response := resp |}.

(** Modelled from the spec: [Command.from_encoded], missing from the
    sources (section 4.5): the byte strings given are stored. *)
Definition from_encoded (self : Command)
    (req resp : option (list byte)) : Command :=
  {| request := request self; response := response self;
     _encoded_request := req; _decoded_request := None;
     _encoded_response := resp; _decoded_response := None |}.

(** Modelled from the spec: the property [encoded_request] of [Command],
    missing from the sources (sections 3 and 4.5).  A stored form is
    returned as it is; a missing form is derived from the other form of its
    side on first access and cached; with neither form the property is
    [None].  The result is the value read and the command with its
    cache. *)
Definition encoded_request (self : Command)
  : result (option (list byte)) * Command :=
  match _encoded_request self, _decoded_request self with
  | Some e, _ => (Return (Some e), self)
  | None, Some d =>
      match build (request self) d with
      | Return e =>
          (Return (Some e),
           {| request := request self; response := response self;
              _encoded_request := Some e;
              _decoded_request := _decoded_request self;
              _encoded_response := _encoded_response self;
              _decoded_response := _decoded_response self |})
      | Raise x => (Raise x, self)
      end
  | None, None => (Return None, self)
  end.

(** Modelled from the spec: the property [decoded_request], missing from
    the sources (sections 3 and 4.5), derived with [parse]. *)
Definition decoded_request (self : Command)
  : result (option (gmap string field_value)) * Command :=
  match _decoded_request self, _encoded_request self with
  | Some d, _ => (Return (Some d), self)
  | None, Some e =>
      match parse (request self) e with
      | Return d =>
          (Return (Some d),
           {| request := request self; response := response self;
              _encoded_request := _encoded_request self;
              _decoded_request := Some d;
              _encoded_response := _encoded_response self;
              _decoded_response := _decoded_response self |})
      | Raise x => (Raise x, self)
      end
  | None, None => (Return None, self)
  end.

(** Modelled from the spec: the property [encoded_response], missing from
    the sources (sections 3 and 4.5), derived with [build]. *)
Definition encoded_response (self : Command)
  : result (option (list byte)) * Command :=
  match _encoded_response self, _decoded_response self with
  | Some e, _ => (Return (Some e), self)
  | None, Some d =>
      match build (response self) d with
      | Return e =>
          (Return (Some e),
           {| request := request self; response := response self;
              _encoded_request := _encoded_request self;
              _decoded_request := _decoded_request self;
              _encoded_response := Some e;
              _decoded_response := _decoded_response self |})
      | Raise x => (Raise x, self)
      end
  | None, None => (Return None, self)
  end.

(** Modelled from the spec: the property [decoded_response], missing from
    the sources (sections 3 and 4.5), derived with [parse]. *)
Definition decoded_response (self : Command)
  : result (option (gmap string field_value)) * Command :=
  match _decoded_response self, _encoded_response self with
  | Some d, _ => (Return (Some d), self)
  | None, Some e =>
      match parse (response self) e with
      | Return d =>
          (Return (Some d),
           {| request := request self; response := response self;
              _encoded_request := _encoded_request self;
              _decoded_request := _decoded_request self;
              _encoded_response := _encoded_response self;
              _decoded_response := Some d |})
      | Raise x => (Raise x, self)
      end
  | None, None => (Return None, self)
  end.

(** Nothing is stored for a side. *)
Definition request_unset (self : Command) : Prop :=
  _encoded_request self = None /\ _decoded_request self = None.

Definition response_unset (self : Command) : Prop :=
  _encoded_response self = None /\ _decoded_response self = None.

(** Reading a property leaves the command with its cache filled. *)
Inductive property :=
| EncodedRequest
| DecodedRequest
| EncodedResponse
| DecodedResponse.

Definition touch (self : Command) (p : property) : Command :=
  match p with
  | EncodedRequest => snd (encoded_request self)
  | DecodedRequest => snd (decoded_request self)
  | EncodedResponse => snd (encoded_response self)
  | DecodedResponse => snd (decoded_response self)
  end.

Definition request_reads_absent (self : Command) : Prop :=
  fst (encoded_request self) = Return None
  /\ fst (decoded_request self) = Return None.

Definition response_reads_absent (self : Command) : Prop :=
  fst (encoded_response self) = Return None
  /\ fst (decoded_response self) = Return None.

(** *** Diagnostic helper *)

Definition hex_digit (n : N) : ascii :=
  match String.get (N.to_nat n) "0123456789abcdef" with
  | Some c => c
  | None => "0"%char
  end.

(** Modelled from the spec: the rendering used by the diagnostic helper
    (section 4.5): two lowercase hexadecimal digits per byte, nothing
    between them (Python's [binascii.hexlify]). *)
Fixpoint hexlify (raw : list byte) : string :=
  match raw with
  | [] => EmptyString
  | b :: raw' =>
      String (hex_digit (Byte.to_N b / 16))
        (String (hex_digit (Byte.to_N b mod 16)) (hexlify raw'))
  end.

(** Reading lowercase hexadecimal digits back, two per byte. *)
Definition is_lower_hex (c : ascii) : bool :=
  existsb (Ascii.eqb c) (list_ascii_of_string "0123456789abcdef").

Definition hex_value (c : ascii) : option N :=
  (fix find (digits : list ascii) (i : N) : option N :=
     match digits with
     | [] => None
     | d :: digits' => if Ascii.eqb c d then Some i else find digits' (i + 1)
     end) (list_ascii_of_string "0123456789abcdef") 0.

Fixpoint unhexlify (s : string) : option (list byte) :=
  match s with
  | EmptyString => Some []
  | String h (String l s') =>
      match hex_value h, hex_value l, unhexlify s' with
      | Some hv, Some lv, Some raw => Some (int2byte (16 * hv + lv) :: raw)
      | _, _, _ => None
      end
  | String _ EmptyString => None
  end.

(** Modelled from the spec: [Command._pretty_raw], missing from the
    sources (section 4.5): bytes are rendered as lowercase hexadecimal
    digits without separators, an absent value stays absent. *)
Definition _pretty_raw (raw : option (list byte)) : option string :=
  match raw with
  | Some b => Some (hexlify b)
  | None => None
  end.

(** *** The fixtures of [test_commands.py] *)

Definition write_value_args : gmap string field_value :=
  <["object_id"%string := VPath [127; 7]%Z]>
  (<["type"%string := VInt 6]>
  (<["size"%string := VInt 10]>
  (<["data"%string := VBytes (repeat x0f 10)]> ∅))).

Definition write_value_req : gmap string field_value :=
  <["opcode"%string := VInt 2]> write_value_args.

End Commands.

(** * Properties *)

(** ** Bytes and slices *)

Lemma int2byte_to_N (n : N) : n < 256 -> Byte.to_N (int2byte n) = n.
Proof.
  intros Hn. unfold int2byte.
  destruct (Byte.of_N n) as [b|] eqn:E.
  - by apply Byte.to_of_N.
  - apply Byte.of_N_None_iff in E. lia.
Qed.

Lemma len_app {A} (a b : list A) : len (a ++ b) = len a + len b.
Proof. unfold len. rewrite length_app. lia. Qed.

Lemma len_cons {A} (x : A) (l : list A) : len (x :: l) = len l + 1.
Proof. unfold len. simpl. lia. Qed.

Lemma py_drop_0 {A} (l : list A) : py_drop l 0 = l.
Proof. by destruct l. Qed.

Lemma py_drop_app {A} (a b : list A) : py_drop (a ++ b) (len a) = b.
Proof.
  induction a as [|x a IH]; simpl.
  - apply py_drop_0.
  - rewrite len_cons. destruct (len a + 1 =? 0) eqn:E; [apply N.eqb_eq in E; lia|].
    replace (N.pred (len a + 1)) with (len a) by lia. exact IH.
Qed.

Lemma py_take_app {A} (a b : list A) : py_take (a ++ b) (len a) = a.
Proof.
  induction a as [|x a IH]; simpl.
  - by destruct b.
  - rewrite len_cons. destruct (len a + 1 =? 0) eqn:E; [apply N.eqb_eq in E; lia|].
    replace (N.pred (len a + 1)) with (len a) by lia. by rewrite IH.
Qed.

Lemma py_take_all {A} (a : list A) (n : N) : len a <= n -> py_take a n = a.
Proof.
  revert n. induction a as [|x a IH]; intros n Hn; simpl; [done|].
  rewrite len_cons in Hn.
  destruct (n =? 0) eqn:E; [apply N.eqb_eq in E; lia|].
  rewrite IH; [done | lia].
Qed.

(** ** Varints *)

Section VarintFacts.
Import Varint.

Lemma EncodeVarint_zero (bits : N) : EncodeVarint bits 0 = [int2byte bits].
Proof. by simp EncodeVarint. Qed.

Lemma EncodeVarint_more (bits value : N) :
  value <> 0 ->
  EncodeVarint bits value =
  int2byte (N.lor 0x80 bits)
    :: EncodeVarint (N.land value 0x7f) (N.shiftr value 7).
Proof.
  intros Hv. rewrite EncodeVarint_equation_1.
  destruct (N.eq_dec value 0) as [E|E]; [congruence | reflexivity].
Qed.

Lemma _VarintBytes_unfold (n : N) :
  _VarintBytes n =
  if N.shiftr n 7 =? 0 then [int2byte (N.land n 0x7f)]
  else int2byte (N.lor 0x80 (N.land n 0x7f)) :: _VarintBytes (N.shiftr n 7).
Proof.
  unfold _VarintBytes at 1.
  destruct (N.shiftr n 7 =? 0) eqn:E.
  - apply N.eqb_eq in E. rewrite E. apply EncodeVarint_zero.
  - apply N.eqb_neq in E. by rewrite EncodeVarint_more.
Qed.

Lemma land_0x7f (n : N) : N.land n 0x7f = n mod 128.
Proof. change 0x7f with (N.ones 7). by rewrite N.land_ones. Qed.

Lemma shiftr_7 (n : N) : N.shiftr n 7 = n / 128.
Proof. by rewrite N.shiftr_div_pow2. Qed.

Lemma split_group (n : N) : n = n mod 128 + 128 * (n / 128).
Proof. pose proof (N.div_mod n 128). lia. Qed.

Lemma lor_0x80 (bits : N) : bits < 128 -> N.lor 0x80 bits = 128 + bits.
Proof.
  intros Hb. rewrite <- N.lxor_lor, <- N.add_nocarry_lxor; try done.
  all: apply N.bits_inj; intros i; rewrite N.land_spec, N.bits_0;
    destruct (N.lt_ge_cases i 7) as [Hi|Hi].
  all: try (replace (N.testbit 128 i) with false; [done|];
    symmetry; change 128 with (1 * 2 ^ 7); by apply N.mul_pow2_bits_low).
  all: replace (N.testbit bits i) with false; [by rewrite andb_false_r|];
    symmetry; destruct (N.eq_dec bits 0) as [->|Hz]; [apply N.bits_0|];
    apply N.bits_above_log2; apply N.log2_lt_pow2; [lia|];
    apply N.lt_le_trans with (2 ^ 7); [exact Hb|]; by apply N.pow_le_mono_r.
Qed.

Lemma testbit_above (a i n : N) : a < 2 ^ n -> n <= i -> N.testbit a i = false.
Proof.
  intros Ha Hi. destruct (N.eq_dec a 0) as [->|Hz]; [apply N.bits_0|].
  apply N.bits_above_log2, N.log2_lt_pow2; [lia|].
  apply N.lt_le_trans with (2 ^ n); [exact Ha|]. by apply N.pow_le_mono_r.
Qed.

Lemma lor_shiftl_add (acc x shift : N) :
  acc < 2 ^ shift -> N.lor acc (N.shiftl x shift) = acc + x * 2 ^ shift.
Proof.
  intros Hacc.
  assert (H0 : N.land acc (N.shiftl x shift) = 0).
  { apply N.bits_inj; intros i. rewrite N.land_spec, N.bits_0.
    destruct (N.lt_ge_cases i shift) as [Hi|Hi].
    - by rewrite N.shiftl_spec_low, andb_false_r.
    - by rewrite (testbit_above acc i shift). }
  rewrite <- N.lxor_lor, <- N.add_nocarry_lxor by done.
  by rewrite N.shiftl_mul_pow2.
Qed.

Lemma continuation_bit (b : byte) :
  (N.land (Byte.to_N b) 0x80 =? 0) = (Byte.to_N b <? 0x80).
Proof. destruct b; reflexivity. Qed.

Lemma continuation_framed_cons (x b : byte) (rest : list byte) :
  continuation_framed (x :: b :: rest) =
  (0x80 <=? Byte.to_N x) && continuation_framed (b :: rest).
Proof. reflexivity. Qed.

Lemma EncodeVarint_nonempty (bits value : N) :
  exists b rest, EncodeVarint bits value = b :: rest.
Proof.
  destruct (N.eq_dec value 0) as [->|Hv].
  - rewrite EncodeVarint_zero. eauto.
  - rewrite EncodeVarint_more by done. eauto.
Qed.

Lemma EncodeVarint_is_varint (value : N) : forall bits,
  bits < 128 -> is_varint_of (EncodeVarint bits value) (bits + 128 * value).
Proof.
  induction value as [value IH] using (well_founded_induction N.lt_wf_0).
  intros bits Hb. destruct (N.eq_dec value 0) as [->|Hv].
  - rewrite EncodeVarint_zero. split; simpl.
    + rewrite int2byte_to_N by lia. by apply N.ltb_lt.
    + rewrite int2byte_to_N, land_0x7f, N.mod_small by lia. lia.
  - rewrite EncodeVarint_more by done.
    assert (Hlt : value / 128 < value) by (apply N.div_lt; lia).
    assert (Hm : value mod 128 < 128) by (apply N.mod_lt; lia).
    destruct (IH (value / 128) Hlt (value mod 128) Hm) as [Hf Hg].
    rewrite <- land_0x7f, <- shiftr_7 in Hf, Hg.
    destruct (EncodeVarint_nonempty (N.land value 0x7f) (N.shiftr value 7))
      as (b & rest & E).
    rewrite E in *. split.
    + rewrite continuation_framed_cons, Hf, andb_true_r.
      rewrite int2byte_to_N; rewrite lor_0x80 by done; [|lia].
      apply N.leb_le. lia.
    + cbn [groups_value] in *. rewrite Hg.
      rewrite int2byte_to_N; rewrite lor_0x80 by done; [|lia].
      rewrite land_0x7f.
      replace ((128 + bits) mod 128) with bits.
      * rewrite land_0x7f, shiftr_7. pose proof (split_group value). lia.
      * symmetry. rewrite N.add_comm. change 128 with (1 * 128) at 1.
        rewrite N.Div0.mod_add. by apply N.mod_small.
Qed.

Lemma _VarintBytes_is_varint (n : N) : is_varint_of (_VarintBytes n) n.
Proof.
  unfold _VarintBytes. rewrite (split_group n) at 3.
  rewrite land_0x7f, shiftr_7. apply EncodeVarint_is_varint.
  apply N.mod_lt. lia.
Qed.

Lemma _VarintBytes_minimal (bs : list byte) : forall n,
  is_varint_of bs n -> (length (_VarintBytes n) <= length bs)%nat.
Proof.
  induction bs as [|b rest IH]; intros n [Hf Hg]; [done|].
  cbn [groups_value] in Hg.
  assert (Hlow : N.land (Byte.to_N b) 0x7f < 128)
    by (rewrite land_0x7f; apply N.mod_lt; lia).
  assert (Hdiv : n / 128 = groups_value rest).
  { subst n. rewrite N.add_comm, N.mul_comm, N.div_add_l by lia.
    rewrite N.div_small by done. lia. }
  rewrite _VarintBytes_unfold, shiftr_7, Hdiv.
  destruct (groups_value rest =? 0) eqn:E; simpl; [lia|].
  destruct rest as [|b' rest']; [done|].
  rewrite continuation_framed_cons in Hf. apply andb_true_iff in Hf as [_ Hf].
  specialize (IH (groups_value (b' :: rest')) (conj Hf eq_refl)).
  simpl in *. lia.
Qed.

Lemma DecodeVarint_EncodeVarint (value : N) :
  forall bits tail pos acc shift,
    bits < 128 -> acc < 2 ^ shift ->
    acc + (bits + 128 * value) * 2 ^ shift < 2 ^ 64 ->
    DecodeVarint (EncodeVarint bits value ++ tail) pos acc shift =
    Return (acc + (bits + 128 * value) * 2 ^ shift,
            pos + len (EncodeVarint bits value)).
Proof.
  induction value as [value IH] using (well_founded_induction N.lt_wf_0).
  intros bits tail pos acc shift Hb Hacc Hfit.
  destruct (N.eq_dec value 0) as [->|Hv].
  - rewrite EncodeVarint_zero. cbn [app DecodeVarint].
    rewrite continuation_bit, int2byte_to_N by lia.
    rewrite land_0x7f, N.mod_small by done.
    rewrite lor_shiftl_add by done.
    destruct (bits <? 0x80) eqn:E; [|apply N.ltb_ge in E; lia].
    unfold mask64. rewrite N.land_ones, N.mod_small.
    + f_equal. apply pair_equal_spec. split; [lia | unfold len; simpl; lia].
    + replace (bits + 128 * 0) with bits in Hfit by lia. exact Hfit.
  - rewrite EncodeVarint_more by done. cbn [app DecodeVarint].
    rewrite continuation_bit, int2byte_to_N;
      rewrite lor_0x80 by done; [|lia].
    rewrite land_0x7f.
    replace ((128 + bits) mod 128) with bits.
    2:{ symmetry. rewrite N.add_comm. change 128 with (1 * 128) at 1.
        rewrite N.Div0.mod_add. by apply N.mod_small. }
    rewrite lor_shiftl_add by done.
    destruct (128 + bits <? 0x80) eqn:E; [apply N.ltb_lt in E; lia|].
    assert (Hpow : 2 ^ (shift + 7) = 128 * 2 ^ shift)
      by (rewrite N.pow_add_r; change (2 ^ 7) with 128; lia).
    assert (Hs : shift + 7 < 64).
    { apply (N.pow_lt_mono_r_iff 2); [lia|]. rewrite Hpow. nia. }
    destruct (64 <=? shift + 7) eqn:E64; [apply N.leb_le in E64; lia|].
    assert (Hlt : value / 128 < value) by (apply N.div_lt; lia).
    assert (Hm : value mod 128 < 128) by (apply N.mod_lt; lia).
    rewrite land_0x7f, shiftr_7.
    pose proof (split_group value) as Hsplit.
    rewrite (IH (value / 128) Hlt (value mod 128) tail).
    + rewrite Hpow. f_equal. apply pair_equal_spec.
      split; [nia | rewrite len_cons; lia].
    + done.
    + rewrite Hpow. nia.
    + rewrite Hpow. nia.
Qed.

Lemma _DecodeVarint_VarintBytes (n : N) (tail : list byte) :
  n < 2 ^ 64 ->
  _DecodeVarint (_VarintBytes n ++ tail) 0 = Return (n, len (_VarintBytes n)).
Proof.
  intros Hn. unfold _DecodeVarint. rewrite py_drop_0. unfold _VarintBytes.
  rewrite land_0x7f, shiftr_7.
  pose proof (split_group n) as Hsplit.
  rewrite DecodeVarint_EncodeVarint.
  - f_equal. apply pair_equal_spec. split; [lia | done].
  - apply N.mod_lt. lia.
  - simpl. lia.
  - lia.
Qed.

Lemma py_take_cons {A} (x : A) (l : list A) (n : N) :
  py_take (x :: l) (n + 1) = x :: py_take l n.
Proof.
  cbn [py_take]. destruct (n + 1 =? 0) eqn:E; [apply N.eqb_eq in E; lia|].
  by replace (N.pred (n + 1)) with n by lia.
Qed.

(** A prefix whose bytes all carry the continuation bit, as far as the
    decoder looks, never ends: the decoder runs off the buffer, or gives up
    once the shift reaches 64. *)
Lemma DecodeVarint_unterminated (bs : list byte) :
  forall pos acc shift,
    all_continued (py_take bs ((63 - shift) / 7 + 1)) = true ->
    DecodeVarint bs pos acc shift =
    if len bs <=? (63 - shift) / 7
    then Raise (IndexError "index out of range")
    else Raise (DecodeError "Too many bytes when decoding varint.").
Proof.
  induction bs as [|b bs IH]; intros pos acc shift Hall.
  { cbn [DecodeVarint]. change (len []) with 0.
    destruct (0 <=? (63 - shift) / 7) eqn:E; [done|].
    apply N.leb_gt in E. by apply N.nlt_0_r in E. }
  rewrite py_take_cons in Hall.
  cbn [all_continued forallb] in Hall. apply andb_true_iff in Hall as [Hb Hall].
  cbn [DecodeVarint]. rewrite continuation_bit.
  apply N.leb_le in Hb.
  destruct (Byte.to_N b <? 0x80) eqn:E; [apply N.ltb_lt in E; lia|].
  rewrite len_cons.
  destruct (64 <=? shift + 7) eqn:E64.
  - apply N.leb_le in E64.
    assert ((63 - shift) / 7 = 0) as -> by (apply N.div_small; lia).
    destruct (len bs + 1 <=? 0) eqn:E0; [apply N.leb_le in E0; lia|done].
  - apply N.leb_gt in E64.
    assert (Hk : (63 - shift) / 7 = (63 - (shift + 7)) / 7 + 1).
    { replace (63 - shift) with (63 - (shift + 7) + 1 * 7) by lia.
      by rewrite N.div_add by lia. }
    rewrite Hk in Hall |- *. rewrite IH by exact Hall.
    destruct (len bs <=? (63 - (shift + 7)) / 7) eqn:E1;
    destruct (len bs + 1 <=? (63 - (shift + 7)) / 7 + 1) eqn:E2; try done.
    + apply N.leb_le in E1. apply N.leb_gt in E2. lia.
    + apply N.leb_gt in E1. apply N.leb_le in E2. lia.
Qed.

End VarintFacts.

(** ** The payload codec *)

Section CodecFacts.
Import Varint Codec.
Context {dict : Type}.
Variables OneWireBus OneWireTempSensor : MessageClass dict.

Local Abbreviation _TYPE_MAPPING := (_TYPE_MAPPING OneWireBus OneWireTempSensor).
Local Abbreviation _transcoder := (_transcoder OneWireBus OneWireTempSensor).
Local Abbreviation encode := (encode OneWireBus OneWireTempSensor).
Local Abbreviation decode := (decode OneWireBus OneWireTempSensor).

Lemma unregistered_type (t : Z) :
  _TYPE_MAPPING !! t = None <-> t <> 6%Z /\ t <> 10%Z.
Proof.
  unfold Codec._TYPE_MAPPING.
  rewrite !lookup_insert_None, lookup_empty. intuition congruence.
Qed.

Lemma _transcoder_registered (t : Z) (cls : ProtobufTranscoder) :
  _TYPE_MAPPING !! t = Some cls -> _transcoder t = Return cls.
Proof. intros H. unfold Codec._transcoder. by rewrite H. Qed.

Lemma _transcoder_unregistered (t : Z) :
  _TYPE_MAPPING !! t = None -> _transcoder t = Raise (no_codec t).
Proof. intros H. unfold Codec._transcoder. by rewrite H. Qed.

Lemma decode_frame (t : Z) (cls : ProtobufTranscoder) (n : N)
    (rest : list byte) :
  _TYPE_MAPPING !! t = Some cls -> n < 2 ^ 64 ->
  decode t (OfBytes (_VarintBytes n ++ rest)) =
  (obj ← ParseFromString (_MESSAGE cls) (py_take rest n);
   Return (MessageToDict (_MESSAGE cls) obj)).
Proof.
  intros Hreg Hn. unfold Codec.decode.
  rewrite (_transcoder_registered _ _ Hreg). cbn [mbind result_bind].
  unfold ProtobufTranscoder_decode. cbn [mbind result_bind].
  rewrite _DecodeVarint_VarintBytes by done. cbn [mbind result_bind].
  unfold py_slice. by rewrite py_drop_app.
Qed.

(** C3: for a registered type tag and values the schema accepts, [encode]
    returns the serialized body behind its byte length, and that length is
    written as a base-128 varint, least-significant group first, with
    continuation bits and in the fewest bytes that can denote it. *)
Theorem encode_is_varint_prefixed_body (t : Z) (cls : ProtobufTranscoder)
    (values : dict) (obj : message (_MESSAGE cls)) (data : list byte) :
  _TYPE_MAPPING !! t = Some cls ->
  ParseDict (_MESSAGE cls) values = Return obj ->
  SerializeToString (_MESSAGE cls) obj = Return data ->
  encode t values = Return (_VarintBytes (len data) ++ data)
  /\ is_varint_of (_VarintBytes (len data)) (len data)
  /\ (forall bs, is_varint_of bs (len data) ->
        (length (_VarintBytes (len data)) <= length bs)%nat).
Proof.
  intros Hreg Hparse Hser. split; [|split].
  - unfold Codec.encode. rewrite (_transcoder_registered _ _ Hreg).
    cbn [mbind result_bind]. unfold ProtobufTranscoder_encode.
    rewrite Hparse. cbn [mbind result_bind]. by rewrite Hser.
  - apply _VarintBytes_is_varint.
  - intros bs. apply _VarintBytes_minimal.
Qed.

(** C4 (as amended): for a registered type tag, [decode] reads the varint
    prefix and hands the parser the bytes that follow, at most as many as
    the prefix declares: bytes beyond the declared length are ignored; a
    body shorter than declared is parsed as it is, with the result of the
    frame that declares just these bytes; a prefix whose first ten bytes
    all carry the continuation bit raises IndexError when the buffer ends
    within nine bytes and DecodeError otherwise. *)
Theorem decode_reads_at_most_declared (t : Z) (cls : ProtobufTranscoder) :
  _TYPE_MAPPING !! t = Some cls ->
  (forall body trailing, len body < 2 ^ 64 ->
     decode t (OfBytes (_VarintBytes (len body) ++ body ++ trailing)) =
     (obj ← ParseFromString (_MESSAGE cls) body;
      Return (MessageToDict (_MESSAGE cls) obj)))
  /\ (forall n body, n < 2 ^ 64 -> len body <= n ->
       decode t (OfBytes (_VarintBytes n ++ body)) =
       decode t (OfBytes (_VarintBytes (len body) ++ body)))
  /\ (forall buf, all_continued (py_take buf 10) = true ->
       decode t (OfBytes buf) =
       if len buf <=? 9
       then Raise (IndexError "index out of range")
       else Raise (DecodeError "Too many bytes when decoding varint.")).
Proof.
  intros Hreg. split; [|split].
  - intros body trailing Hlen.
    rewrite (decode_frame t cls) by done. by rewrite py_take_app.
  - intros n body Hn Hle.
    rewrite !(decode_frame t cls) by (done || lia).
    by rewrite !py_take_all by lia.
  - intros buf Hall. unfold Codec.decode.
    rewrite (_transcoder_registered _ _ Hreg). cbn [mbind result_bind].
    unfold ProtobufTranscoder_decode. cbn [mbind result_bind].
    unfold _DecodeVarint. rewrite py_drop_0.
    rewrite DecodeVarint_unterminated by exact Hall.
    change ((63 - 0) / 7) with 9. by destruct (len buf <=? 9).
Qed.

(** C5: for a type tag outside the registered mapping, [encode] and
    [decode] raise the lookup error naming the tag, whatever the values or
    bytes given. *)
Theorem unregistered_type_raises (t : Z) :
  _TYPE_MAPPING !! t = None ->
  forall (values : dict) (encoded : encoded_arg),
    encode t values = Raise (no_codec t)
    /\ decode t encoded = Raise (no_codec t).
Proof.
  intros Hreg values encoded. unfold Codec.encode, Codec.decode.
  by rewrite (_transcoder_unregistered _ Hreg).
Qed.

Lemma py_bytes_total (l : list Z) :
  Forall (fun x => (0 <= x < 256)%Z) l ->
  py_bytes l = Return (map (fun x => int2byte (Z.to_N x)) l).
Proof.
  induction 1 as [|x l Hx _ IH]; [done|]. cbn [py_bytes map].
  destruct ((0 <=? x)%Z && (x <? 256)%Z) eqn:E.
  - by rewrite IH.
  - apply andb_false_iff in E as [E|E]; [apply Z.leb_gt in E|apply Z.ltb_ge in E]; lia.
Qed.

(** C6: decoding a list of byte-sized integers gives what decoding the
    byte string of these integers gives. *)
Theorem decode_list_as_bytes (t : Z) (l : list Z) :
  Forall (fun x => (0 <= x < 256)%Z) l ->
  exists b, py_bytes l = Return b
    /\ Forall2 (fun x c => Z.of_N (Byte.to_N c) = x) l b
    /\ decode t (OfList l) = decode t (OfBytes b).
Proof.
  intros Hl. exists (map (fun x => int2byte (Z.to_N x)) l).
  split; [by apply py_bytes_total|]. split.
  - induction Hl as [|x l Hx _ IH]; constructor; [|done].
    rewrite int2byte_to_N by lia. lia.
  - unfold Codec.decode. destruct (_transcoder t) as [cls|e]; [|done].
    cbn [mbind result_bind]. unfold ProtobufTranscoder_decode.
    by rewrite py_bytes_total.
Qed.

End CodecFacts.

(** ** The datastore *)

Section DatastoreFacts.
Import Datastore.
Variable value : Type.
Variable py_eq : value -> value -> bool.
Variable py_str : value -> string.

Local Abbreviation insert_unique := (insert_unique value py_eq py_str).
Local Abbreviation Query_eq := (Query_eq value py_eq).

Lemma insert_unique_unfold (id_key : string) (obj : gmap string value)
    (self : MemoryDataStore value) :
  insert_unique id_key obj self =
  match obj !! id_key with
  | None => (Raise (KeyError id_key), self)
  | Some id =>
      if existsb (Query_eq id_key id) (_db value self)
      then (Raise (AssertionError (py_str id +:+ " already exists")), self)
      else (Return tt, {| _db := _db value self ++ [obj] |})
  end.
Proof.
  destruct self as [db].
  unfold Datastore.insert_unique, _do_with_db, insert_unique_func, db_bind,
    db_lift, db_contains, db_insert, getitem, py_assert.
  cbn [_db]. destruct (obj !! id_key) as [id|]; [|done].
  by destruct (existsb _ db).
Qed.

(** C10: [insert_unique] raises KeyError when the document lacks the key
    and AssertionError when a stored document has an equal value under
    the key; whenever it raises the store is as before; otherwise exactly
    the document is added. *)
Theorem insert_unique_all_or_nothing (id_key : string)
    (obj : gmap string value) (self : MemoryDataStore value) :
  (obj !! id_key = None ->
     insert_unique id_key obj self = (Raise (KeyError id_key), self))
  /\ (forall id doc v,
        obj !! id_key = Some id ->
        doc ∈ _db value self -> doc !! id_key = Some v -> py_eq v id = true ->
        insert_unique id_key obj self =
        (Raise (AssertionError (py_str id +:+ " already exists")), self))
  /\ (forall id,
        obj !! id_key = Some id ->
        (forall doc v, doc ∈ _db value self -> doc !! id_key = Some v ->
                       py_eq v id = false) ->
        insert_unique id_key obj self =
        (Return tt, {| _db := _db value self ++ [obj] |}))
  /\ (forall r self',
        insert_unique id_key obj self = (r, self') ->
        (raises r = true -> self' = self)
        /\ (returns r = true -> _db value self' = _db value self ++ [obj])).
Proof.
  rewrite insert_unique_unfold. split; [|split; [|split]].
  - by intros ->.
  - intros id doc v -> Hin Hdoc Heq.
    assert (existsb (Query_eq id_key id) (_db value self) = true) as ->; [|done].
    apply existsb_exists. exists doc. split; [by apply list_elem_of_In|].
    unfold Datastore.Query_eq. by rewrite Hdoc.
  - intros id -> Hnone.
    assert (existsb (Query_eq id_key id) (_db value self) = false) as ->; [|done].
    apply not_true_is_false. intros (doc & Hin & Hq)%existsb_exists.
    apply list_elem_of_In in Hin. unfold Datastore.Query_eq in Hq.
    destruct (doc !! id_key) as [v|] eqn:E; [|done].
    by rewrite (Hnone doc v Hin E) in Hq.
  - intros r self'. destruct (obj !! id_key) as [id|];
      [destruct (existsb _ _)|]; intros [= <- <-]; done.
Qed.

End DatastoreFacts.

(** ** The command layer *)

Section CommandFacts.
Import Commands.

(** *** Address codec *)

Lemma segment_ok_range (x : Z) : segment_ok x = true -> (0 <= x < 128)%Z.
Proof. unfold segment_ok. intros [? ?]%andb_true_iff. lia. Qed.

Lemma flagged_segment (x : Z) :
  (0 <= x < 128)%Z ->
  Byte.to_N (int2byte (N.lor 0x80 (Z.to_N x))) = 128 + Z.to_N x.
Proof. intros Hx. rewrite lor_0x80 by lia. apply int2byte_to_N. lia. Qed.

Lemma decode_encode_segments (path : list Z) : forall bs tail,
  encode_address path = Return bs ->
  decode_segments (bs ++ tail) = Return (path, len bs).
Proof.
  induction path as [|x rest IH]; intros bs tail Henc; [done|].
  cbn [encode_address] in Henc.
  destruct (segment_ok x) eqn:Hx; [|done].
  apply segment_ok_range in Hx. destruct rest as [|y rest].
  - injection Henc as <-. cbn [app decode_segments].
    rewrite int2byte_to_N by lia.
    destruct (Z.to_N x <? 0x80) eqn:E; [|apply N.ltb_ge in E; lia].
    by rewrite Z2N.id by lia.
  - destruct (encode_address (y :: rest)) as [bs'|] eqn:Hrest; [|done].
    injection Henc as <-. cbn [app decode_segments].
    rewrite flagged_segment by done.
    destruct (128 + Z.to_N x <? 0x80) eqn:E; [apply N.ltb_lt in E; lia|].
    rewrite (IH bs' tail eq_refl). cbn [mbind result_bind].
    rewrite land_0x7f, len_cons.
    replace ((128 + Z.to_N x) mod 128) with (Z.to_N x).
    + by rewrite Z2N.id by lia.
    + symmetry. rewrite N.add_comm. change 128 with (1 * 128) at 1.
      rewrite N.Div0.mod_add. apply N.mod_small. lia.
Qed.

(** *** Schemas *)

Lemma byte_eqb_refl (b : byte) : Byte.eqb b b = true.
Proof. by apply Byte.byte_dec_lb. Qed.

Lemma parse_build_field (name : string) (kind : field_kind)
    (values ctx : gmap string field_value) (bs tail : list byte) :
  build_field kind (values !! name) values = Return bs ->
  (forall size_field, kind = Blob size_field ->
     ctx !! size_field = values !! size_field) ->
  exists x, field_target kind (values !! name) = Some x
    /\ parse_field kind (bs ++ tail) ctx = Return (x, tail).
Proof.
  intros Hbuild Hctx. destruct kind as [op| | |size_field]; cbn in Hbuild.
  - exists (VInt (byte_value op)). split; [done|].
    assert (bs = [op]) as ->.
    { destruct (values !! name) as [[z| |]|]; try done.
      - destruct (z =? byte_value op)%Z; by inversion Hbuild.
      - by inversion Hbuild. }
    cbn. by rewrite byte_eqb_refl.
  - destruct (values !! name) as [[z| |]|]; try done.
    destruct (byte_ok z) eqn:Hz; [|done]. injection Hbuild as <-.
    exists (VInt z). split; [done|]. cbn. unfold byte_value.
    unfold byte_ok in Hz. apply andb_true_iff in Hz as [?%Z.leb_le ?%Z.ltb_lt].
    rewrite int2byte_to_N by lia. by rewrite Z2N.id.
  - destruct (values !! name) as [[|path|]|]; try done.
    exists (VPath path). split; [done|]. cbn. unfold decode_address.
    rewrite py_drop_0, (decode_encode_segments path bs tail Hbuild).
    cbn [mbind result_bind]. by rewrite py_drop_app.
  - destruct (values !! name) as [[| |data]|]; try done.
    destruct (values !! size_field) as [[n| |]|] eqn:Hsize; try done.
    destruct (n =? Z.of_N (len data))%Z eqn:Hn; [|done].
    injection Hbuild as <-. apply Z.eqb_eq in Hn. subst n.
    exists (VBytes data). split; [done|]. cbn.
    rewrite (Hctx size_field eq_refl), Hsize, N2Z.id.
    destruct (Z.of_N (len (data ++ tail)) <? Z.of_N (len data))%Z eqn:E.
    { apply Z.ltb_lt in E. rewrite len_app in E. lia. }
    by rewrite py_take_app, py_drop_app.
Qed.

Lemma schema_wf_from_cons (seen : gmap string field_kind) (name : string)
    (kind : field_kind) (s : schema) :
  schema_wf_from seen ((name, kind) :: s) = true ->
  seen !! name = None
  /\ (forall size_field, kind = Blob size_field ->
        seen !! size_field = Some UInt8)
  /\ schema_wf_from (<[name := kind]> seen) s = true.
Proof.
  cbn [schema_wf_from].
  intros [[Hfresh Hsize]%andb_true_iff Hrest]%andb_true_iff.
  apply bool_decide_eq_true in Hfresh. repeat split; try done.
  intros size_field ->. by apply bool_decide_eq_true in Hsize.
Qed.

Lemma schema_wf_from_fresh (s : schema) : forall seen k,
  schema_wf_from seen s = true -> is_Some (seen !! k) ->
  (list_to_map s : gmap string field_kind) !! k = None.
Proof.
  induction s as [|[name kind] s IH]; intros seen k Hwf Hk; [done|].
  apply schema_wf_from_cons in Hwf as (Hfresh & _ & Hrest).
  cbn [list_to_map foldr]. destruct (decide (name = k)) as [->|Hne].
  - rewrite Hfresh in Hk. by destruct Hk.
  - rewrite lookup_insert_ne by done. apply (IH _ _ Hrest).
    by rewrite lookup_insert_ne.
Qed.

Lemma parse_build_fields (s : schema) : forall seen ctx values bs tail,
  schema_wf_from seen s = true ->
  (forall k, seen !! k = Some UInt8 -> ctx !! k = values !! k) ->
  build_fields s values = Return bs ->
  exists r, parse_fields s (bs ++ tail) ctx = Return (r, tail)
    /\ forall k, r !! k =
         match (list_to_map s : gmap string field_kind) !! k with
         | Some kind => field_target kind (values !! k)
         | None => ctx !! k
         end.
Proof.
  induction s as [|[name kind] s IH]; intros seen ctx values bs tail Hwf Hctx Hbuild.
  - injection Hbuild as <-. by exists ctx.
  - apply schema_wf_from_cons in Hwf as (Hfresh & Hsize & Hrest).
    cbn [build_fields] in Hbuild.
    destruct (build_field kind (values !! name) values) as [bs1|] eqn:H1; [|done].
    destruct (build_fields s values) as [bs2|] eqn:H2; [|done].
    injection Hbuild as <-.
    destruct (parse_build_field name kind values ctx bs1 (bs2 ++ tail) H1)
      as (x & Hx & Hparse).
    { intros size_field ->. apply Hctx. by apply Hsize. }
    destruct (IH (<[name := kind]> seen) (<[name := x]> ctx) values bs2 tail
                Hrest) as (r & Hr & Hlookup); [|done|].
    { intros k Hk. destruct (decide (name = k)) as [->|Hne].
      - rewrite lookup_insert_eq in Hk. injection Hk as ->.
        rewrite lookup_insert_eq. by rewrite <- Hx.
      - rewrite lookup_insert_ne in Hk by done.
        rewrite lookup_insert_ne by done. by apply Hctx. }
    exists r. split.
    + cbn [parse_fields]. rewrite <- app_assoc, Hparse. exact Hr.
    + intros k. rewrite Hlookup. cbn [list_to_map foldr].
      destruct (decide (name = k)) as [->|Hne].
      * rewrite lookup_insert_eq.
        rewrite (schema_wf_from_fresh s _ k Hrest)
          by (rewrite lookup_insert_eq; eauto).
        by rewrite lookup_insert_eq.
      * by rewrite !lookup_insert_ne by done.
Qed.

Lemma with_opcode_lookup (s : schema) : forall seen values k,
  schema_wf_from seen s = true ->
  with_opcode s values !! k =
  match (list_to_map s : gmap string field_kind) !! k with
  | Some kind => field_target kind (values !! k)
  | None => values !! k
  end.
Proof.
  induction s as [|[name kind] s IH]; intros seen values k Hwf; [done|].
  apply schema_wf_from_cons in Hwf as (Hfresh & _ & Hrest).
  cbn [with_opcode list_to_map foldr].
  destruct (decide (name = k)) as [->|Hne].
  - rewrite lookup_insert_eq. destruct kind; try by rewrite lookup_insert_eq.
    all: rewrite (IH _ values k Hrest);
      by rewrite (schema_wf_from_fresh s _ k Hrest)
        by (rewrite lookup_insert_eq; eauto).
  - rewrite lookup_insert_ne by done.
    destruct kind; rewrite ?lookup_insert_ne by done; by apply (IH _ _ _ Hrest).
Qed.

(** C2 (as amended): for every well-formed schema and every mapping that
    satisfies it, parsing what [build] produced returns the mapping with
    the opcode of the schema filled in; it returns the mapping itself when
    the mapping already names the opcode. *)
Theorem parse_build_fills_opcode (s : schema)
    (values : gmap string field_value) (bs : list byte) :
  schema_wf s = true ->
  satisfies s values ->
  build s values = Return bs ->
  parse s bs = Return (with_opcode s values)
  /\ ((forall name op, (name, Opcode op) ∈ s -> is_Some (values !! name)) ->
      parse s bs = Return values).
Proof.
  intros Hwf [Hdom _] Hbuild.
  destruct (parse_build_fields s ∅ ∅ values bs [] Hwf) as (r & Hr & Hlookup);
    [done|done|].
  rewrite app_nil_r in Hr.
  assert (Hparse : parse s bs = Return (with_opcode s values)).
  { unfold parse. rewrite Hr. cbn [mbind result_bind]. f_equal.
    apply map_eq. intros k. rewrite Hlookup, (with_opcode_lookup s ∅) by done.
    destruct (list_to_map s !! k) as [kind|] eqn:E; [done|].
    rewrite lookup_empty. symmetry. apply eq_None_not_Some. intros [v Hk].
    apply Hdom in Hk. by apply not_elem_of_list_to_map in E. }
  split; [done|]. intros Hop. rewrite Hparse. f_equal.
  apply map_eq. intros k. rewrite (with_opcode_lookup s ∅) by done.
  destruct (list_to_map s !! k) as [kind|] eqn:E; [|done].
  destruct kind as [op| | |]; try done. cbn [field_target].
  apply elem_of_list_to_map_2 in E. destruct (Hop k op E) as [v Hv].
  (* the value stored under the opcode is the one [build] accepted *)
  clear Hparse Hr Hlookup Hdom Hop Hwf. unfold build in Hbuild.
  revert bs Hbuild. induction s as [|[name kind] s IH]; intros bs Hbuild.
  { by apply elem_of_nil in E. }
  cbn [build_fields] in Hbuild.
  destruct (build_field kind (values !! name) values) as [bs1|] eqn:H1; [|done].
  destruct (build_fields s values) as [bs2|] eqn:H2; [|done].
  apply elem_of_cons in E as [[= <- <-]|E]; [|by apply (IH E bs2)].
  cbn in H1. rewrite Hv in *. destruct v as [z| |]; try done.
  destruct (z =? byte_value op)%Z eqn:Hz; [|done].
  apply Z.eqb_eq in Hz. by subst z.
Qed.

(** C1: the write-value request built from the arguments of the test
    starts with opcode 2, carries the bytes 0xFF 0x07 at positions 1 and
    2, and parses back to the object id [127, 7] and the ten data
    bytes. *)
Theorem write_value_nesting_flag :
  exists cmd bin_cmd decoded,
    from_args WriteValueCommand write_value_args = Return cmd
    /\ encoded_request cmd = (Return (Some bin_cmd), cmd)
    /\ bin_cmd !! 0%nat = Some x02
    /\ py_slice bin_cmd 1 2 = [xff; x07]
    /\ parse (request cmd) bin_cmd = Return decoded
    /\ decoded !! "object_id"%string = Some (VPath [127; 7]%Z)
    /\ decoded !! "data"%string = Some (VBytes (repeat x0f 10)).
Proof.
  exists {| request := write_value_request; response := write_value_response;
            _encoded_request := Some ([x02; xff; x07; x06; x0a] ++ repeat x0f 10);
            _decoded_request := Some write_value_req;
            _encoded_response := None; _decoded_response := None |},
         ([x02; xff; x07; x06; x0a] ++ repeat x0f 10), write_value_req.
  repeat split; vm_compute; reflexivity.
Qed.

(** *** Command index *)

Lemma command_names_NoDup : NoDup command_names.
Proof. apply (bool_decide_unpack _). vm_compute. exact I. Qed.

Lemma command_spec_name (opcode_of : string -> positive)
    (request_of response_of : string -> schema) (cmd_name : string) :
  name (command_spec opcode_of request_of response_of cmd_name) = cmd_name.
Proof. unfold command_spec. by destruct (String.eqb cmd_name "WRITE_VALUE"). Qed.

Lemma command_spec_populated (opcode_of : string -> positive)
    (request_of response_of : string -> schema) (cmd_name : string) :
  spec_populated (command_spec opcode_of request_of response_of cmd_name) = true.
Proof. unfold command_spec. by destruct (String.eqb cmd_name "WRITE_VALUE"). Qed.

(** C7: the registry is built, whatever the opcodes and layouts of the
    commands the spec does not detail, and in it [identify] returns for each
    of the fifteen names the spec of that name, with a non-zero opcode and
    both schemas, and raises KeyError for any other name. *)
Theorem identify_fixed_command_set (opcode_of : string -> positive)
    (request_of response_of : string -> schema) :
  exists index,
    CommandIndex opcode_of request_of response_of = Return index
    /\ length command_names = 15%nat
    /\ forall cmd_name,
         (cmd_name ∈ command_names ->
            exists c, identify index cmd_name = Return c
              /\ name c = cmd_name
              /\ opcode c <> 0%Z
              /\ is_Some (request_schema c)
              /\ is_Some (response_schema c))
         /\ (cmd_name ∉ command_names ->
              identify index cmd_name = Raise (KeyError cmd_name)).
Proof.
  set (spec_of := command_spec opcode_of request_of response_of).
  assert (Hpop : forallb spec_populated (spec_of <$> command_names) = true).
  { apply forallb_forall. intros c Hc.
    apply list_elem_of_In, list_elem_of_fmap in Hc as (n & -> & _).
    apply command_spec_populated. }
  assert (Hfst : ((fun c => (name c, c)) <$> (spec_of <$> command_names)).*1
                 = command_names).
  { rewrite <- !list_fmap_compose. rewrite <- (list_fmap_id command_names) at 2.
    apply list_fmap_ext. intros i n _. apply command_spec_name. }
  eexists. split.
  { unfold CommandIndex. fold spec_of. rewrite Hpop. reflexivity. }
  split; [done|]. intros cmd_name. split.
  - intros Hin. exists (spec_of cmd_name). unfold identify.
    rewrite (elem_of_list_to_map_1 _ cmd_name (spec_of cmd_name)).
    + pose proof (command_spec_populated opcode_of request_of response_of
                    cmd_name) as Hc. fold spec_of in Hc.
      unfold spec_populated in Hc.
      apply andb_true_iff in Hc as [[Hop Hreq]%andb_true_iff Hresp].
      apply negb_true_iff, Z.eqb_neq in Hop.
      apply bool_decide_eq_true in Hreq, Hresp.
      split; [done|]. split; [apply command_spec_name|done].
    + rewrite Hfst. apply command_names_NoDup.
    + apply list_elem_of_fmap. exists (spec_of cmd_name).
      split; [unfold spec_of; by rewrite command_spec_name|].
      apply list_elem_of_fmap. by exists cmd_name.
  - intros Hout. unfold identify.
    rewrite (not_elem_of_list_to_map_1 _ cmd_name); [done|]. by rewrite Hfst.
Qed.

(** *** Command *)

Lemma touch_request_unset (self : Command) (p : property) :
  request_unset self -> request_unset (touch self p).
Proof.
  intros [He Hd]. destruct p; unfold touch, encoded_request, decoded_request,
    encoded_response, decoded_response; rewrite ?He, ?Hd; try done.
  - destruct (_encoded_response self), (_decoded_response self); try done.
    by destruct (build _ _).
  - destruct (_decoded_response self), (_encoded_response self); try done.
    by destruct (parse _ _).
Qed.

Lemma touch_response_unset (self : Command) (p : property) :
  response_unset self -> response_unset (touch self p).
Proof.
  intros [He Hd]. destruct p; unfold touch, encoded_request, decoded_request,
    encoded_response, decoded_response; rewrite ?He, ?Hd; try done.
  - destruct (_encoded_request self), (_decoded_request self); try done.
    by destruct (build _ _).
  - destruct (_decoded_request self), (_encoded_request self); try done.
    by destruct (parse _ _).
Qed.

Lemma touches_request_unset (ps : list property) : forall self,
  request_unset self -> request_reads_absent (foldl touch self ps).
Proof.
  induction ps as [|p ps IH]; intros self H.
  - destruct H as [He Hd]. cbn [foldl].
    unfold request_reads_absent, encoded_request, decoded_request.
    by rewrite He, Hd.
  - apply IH. by apply touch_request_unset.
Qed.

Lemma touches_response_unset (ps : list property) : forall self,
  response_unset self -> response_reads_absent (foldl touch self ps).
Proof.
  induction ps as [|p ps IH]; intros self H.
  - destruct H as [He Hd]. cbn [foldl].
    unfold response_reads_absent, encoded_response, decoded_response.
    by rewrite He, Hd.
  - apply IH. by apply touch_response_unset.
Qed.

(** C8: whatever the construction mode, a side for which nothing was
    supplied reads as None in its encoded and in its decoded form, also
    after any sequence of reads of the four properties. *)
Theorem absent_side_reads_absent (self : Command) (ps : list property) :
  (forall resp, request_reads_absent (foldl touch (from_decoded self None resp) ps))
  /\ (forall resp, request_reads_absent (foldl touch (from_encoded self None resp) ps))
  /\ (forall req, response_reads_absent (foldl touch (from_decoded self req None) ps))
  /\ (forall req, response_reads_absent (foldl touch (from_encoded self req None) ps))
  /\ (forall kwargs cmd, from_args self kwargs = Return cmd ->
        response_reads_absent (foldl touch cmd ps)).
Proof.
  repeat split; intros;
    try (apply touches_request_unset; by split);
    try (apply touches_response_unset; by split).
  all: unfold from_args in *;
    destruct (build (request self) kwargs); [|done];
    match goal with H : mbind _ _ = Return _ |- _ => injection H as <- end;
    (apply (touches_response_unset ps); by split).
Qed.

(** *** Diagnostic helper *)

Lemma hexlify_byte (b : byte) :
  is_lower_hex (hex_digit (Byte.to_N b / 16)) = true
  /\ is_lower_hex (hex_digit (Byte.to_N b mod 16)) = true
  /\ hex_value (hex_digit (Byte.to_N b / 16)) = Some (Byte.to_N b / 16)
  /\ hex_value (hex_digit (Byte.to_N b mod 16)) = Some (Byte.to_N b mod 16)
  /\ int2byte (16 * (Byte.to_N b / 16) + Byte.to_N b mod 16) = b.
Proof. destruct b; by vm_compute. Qed.

(** C9: the helper renders bytes as lowercase hexadecimal digits, two per
    byte and nothing between them, which read back to the bytes; [de ad]
    renders as dead; an absent value stays absent. *)
Theorem pretty_raw_renders_hex :
  _pretty_raw (Some [xde; xad]) = Some "dead"%string
  /\ _pretty_raw None = None
  /\ forall raw, exists s,
       _pretty_raw (Some raw) = Some s
       /\ String.length s = (2 * length raw)%nat
       /\ forallb is_lower_hex (list_ascii_of_string s) = true
       /\ unhexlify s = Some raw.
Proof.
  split; [done|]. split; [done|]. intros raw. exists (hexlify raw).
  split; [done|]. induction raw as [|b raw (IHl & IHh & IHu)]; [done|].
  destruct (hexlify_byte b) as (H1 & H2 & H3 & H4 & H5).
  cbn [hexlify String.length list_ascii_of_string forallb unhexlify length].
  rewrite IHl, IHh, IHu, H1, H2, H3, H4, H5. repeat split; [lia|done..].
Qed.

End CommandFacts.

(** ** Concrete runs *)

Import Varint Codec Commands.

(** The codec on the sample message class. *)

Lemma encode_is_varint_prefixed_body_witness :
  Sample.encode 6 {[ "offset"%string := 300%Z ]} =
  Return ([x03] ++ [x08; xac; x02]).
Proof.
  apply (encode_is_varint_prefixed_body Sample.Message Sample.Message 6
           (OneWireTempSensorTranscoder Sample.Message)
           {[ "offset"%string := 300%Z ]} 300 [x08; xac; x02]).
  - reflexivity.
  - reflexivity.
  - reflexivity.
Defined.

(** C4, as stated, fails: the prefix declares five body bytes and none
    follows, or declares four and two follow, and decode returns a
    mapping. *)
Lemma decode_short_body_returns :
  [x05] = _VarintBytes 5 ++ []
  /\ len (@nil byte) < 5
  /\ Sample.decode 6 (OfBytes [x05]) = Return ∅
  /\ [x04; x08; x01] = _VarintBytes 4 ++ [x08; x01]
  /\ len [x08; x01] < 4
  /\ Sample.decode 6 (OfBytes [x04; x08; x01]) =
     Return {[ "offset"%string := 1%Z ]}.
Proof. repeat split; vm_compute; reflexivity. Qed.

Lemma decode_reads_at_most_declared_witness :
  Sample.decode 6 (OfBytes (_VarintBytes 3 ++ [x08; xac; x02] ++ [xff; xff])) =
    Return {[ "offset"%string := 300%Z ]}
  /\ Sample.decode 6 (OfBytes (_VarintBytes 7 ++ [x08; xac; x02])) =
     Sample.decode 6 (OfBytes (_VarintBytes 3 ++ [x08; xac; x02]))
  /\ Sample.decode 6 (OfBytes [x80; x80]) =
     Raise (IndexError "index out of range").
Proof.
  destruct (decode_reads_at_most_declared Sample.Message Sample.Message 6
              (OneWireTempSensorTranscoder Sample.Message))
    as (Hframe & Hshort & Hbad).
  - reflexivity.
  - split; [|split].
    + apply (Hframe [x08; xac; x02] [xff; xff]). vm_compute. reflexivity.
    + apply (Hshort 7 [x08; xac; x02]); vm_compute; [reflexivity|discriminate].
    + apply (Hbad [x80; x80]). vm_compute. reflexivity.
Defined.

Lemma unregistered_type_raises_witness :
  Sample.encode 999 ∅ = Raise (KeyError "No codec found for object type [999]")
  /\ Sample.decode 999 (OfBytes [x00]) =
     Raise (KeyError "No codec found for object type [999]").
Proof.
  apply (unregistered_type_raises Sample.Message Sample.Message 999).
  reflexivity.
Defined.

Lemma decode_list_as_bytes_witness :
  exists b, py_bytes [3; 8; 172; 2]%Z = Return b
    /\ Forall2 (fun x c => Z.of_N (Byte.to_N c) = x) [3; 8; 172; 2]%Z b
    /\ Sample.decode 6 (OfList [3; 8; 172; 2]%Z) = Sample.decode 6 (OfBytes b).
Proof.
  apply (decode_list_as_bytes Sample.Message Sample.Message 6 [3; 8; 172; 2]%Z).
  repeat (constructor; [lia|]). constructor.
Defined.

(** The datastore on the fixture of [test_insert_unique]. *)

Lemma insert_unique_all_or_nothing_witness :
  let insert_unique :=
    Datastore.insert_unique _ Datastore.Fixture.json_eqb Datastore.Fixture.json_str in
  let obj := Datastore.Fixture.obj in
  let stored := {| Datastore._db := [obj] |} in
  insert_unique "service_id"%string obj Datastore.Fixture.empty_store =
    (Return tt, stored)
  /\ insert_unique "service_id"%string obj stored =
     (Raise (AssertionError "pancakes already exists"), stored)
  /\ insert_unique "pancakes"%string obj stored =
     (Raise (KeyError "pancakes"), stored).
Proof.
  intros insert_unique obj stored.
  destruct (insert_unique_all_or_nothing _ Datastore.Fixture.json_eqb
              Datastore.Fixture.json_str "service_id" obj
              Datastore.Fixture.empty_store) as (_ & _ & Hfresh & _).
  destruct (insert_unique_all_or_nothing _ Datastore.Fixture.json_eqb
              Datastore.Fixture.json_str "service_id" obj stored)
    as (_ & Hstored & _ & _).
  destruct (insert_unique_all_or_nothing _ Datastore.Fixture.json_eqb
              Datastore.Fixture.json_str "pancakes" obj stored)
    as (Hkey & _).
  split; [|split].
  - apply (Hfresh (Datastore.Fixture.JStr "pancakes")).
    + vm_compute. reflexivity.
    + intros doc v Hdoc. by apply elem_of_nil in Hdoc.
  - apply (Hstored (Datastore.Fixture.JStr "pancakes") obj
             (Datastore.Fixture.JStr "pancakes")).
    + vm_compute. reflexivity.
    + apply list_elem_of_here.
    + vm_compute. reflexivity.
    + vm_compute. reflexivity.
  - apply Hkey. vm_compute. reflexivity.
Defined.

(** The command layer on the fixtures of [test_commands.py]. *)

Lemma write_value_args_satisfy :
  satisfies write_value_request write_value_args.
Proof.
  split; [|vm_compute; reflexivity].
  apply (bool_decide_unpack _). vm_compute. exact I.
Defined.

(** C2, as stated, fails: the fixture of the tests satisfies the schema of
    WRITE_VALUE, and parsing what was built from it returns another
    mapping, the one with the opcode. *)
Lemma parse_build_adds_opcode :
  satisfies write_value_request write_value_args
  /\ exists bs,
       build write_value_request write_value_args = Return bs
       /\ parse write_value_request bs = Return write_value_req
       /\ write_value_req !! "opcode"%string = Some (VInt 2)
       /\ write_value_args !! "opcode"%string = None
       /\ parse write_value_request bs <> Return write_value_args.
Proof.
  split; [exact write_value_args_satisfy|].
  exists ([x02; xff; x07; x06; x0a] ++ repeat x0f 10).
  repeat split; try (vm_compute; reflexivity).
  intros H. assert (Hreq : parse write_value_request
    ([x02; xff; x07; x06; x0a] ++ repeat x0f 10) = Return write_value_req)
    by (vm_compute; reflexivity).
  rewrite Hreq in H.
  apply (f_equal (fun r => match r with
                           | Return m => m !! "opcode"%string
                           | Raise _ => None
                           end)) in H.
  vm_compute in H. discriminate H.
Qed.

Lemma parse_build_fills_opcode_witness :
  parse write_value_request ([x02; xff; x07; x06; x0a] ++ repeat x0f 10) =
  Return (with_opcode write_value_request write_value_args).
Proof.
  apply (parse_build_fills_opcode write_value_request write_value_args).
  - vm_compute. reflexivity.
  - exact write_value_args_satisfy.
  - vm_compute. reflexivity.
Defined.

Lemma identify_fixed_command_set_witness :
  exists index,
    CommandIndex (fun _ => 1%positive) (fun _ => []) (fun _ => []) = Return index
    /\ identify index "WRITE_VALUE" =
       Return {| name := "WRITE_VALUE"; opcode := 2;
                 request_schema := Some write_value_request;
                 response_schema := Some write_value_response |}
    /\ identify index "UNUSED" = Raise (KeyError "UNUSED").
Proof.
  destruct (identify_fixed_command_set (fun _ => 1%positive) (fun _ => [])
              (fun _ => [])) as (index & Hindex & _ & H).
  exists index. split; [exact Hindex|].
  destruct (H "WRITE_VALUE"%string) as [Hin _].
  destruct (H "UNUSED"%string) as [_ Hout].
  split.
  - destruct Hin as (c & Hc & _).
    { apply (bool_decide_unpack _). vm_compute. exact I. }
    rewrite Hc. injection Hindex as <-. vm_compute in Hc.
    injection Hc as <-. reflexivity.
  - apply Hout. apply (bool_decide_unpack _). vm_compute. exact I.
Defined.

Lemma absent_side_reads_absent_witness :
  exists cmd,
    from_args WriteValueCommand write_value_args = Return cmd
    /\ response_reads_absent
         (foldl touch cmd [EncodedRequest; DecodedResponse; EncodedResponse]).
Proof.
  eexists. split; [vm_compute; reflexivity|].
  apply (absent_side_reads_absent WriteValueCommand
           [EncodedRequest; DecodedResponse; EncodedResponse]) with
    (kwargs := write_value_args).
  vm_compute. reflexivity.
Defined.

(** * Further properties *)

(** ** Varint prefixes beyond 64 bits *)

(** The decoder on any well-formed prefix that it reads to its end: the
    groups are added up and the sum is cut to 64 bits. *)
Lemma DecodeVarint_framed (bs : list byte) :
  forall tail pos acc shift,
    continuation_framed bs = true -> acc < 2 ^ shift ->
    shift + 7 * len bs < 71 ->
    DecodeVarint (bs ++ tail) pos acc shift =
    Return ((acc + groups_value bs * 2 ^ shift) mod 2 ^ 64, pos + len bs).
Proof.
  induction bs as [|b bs IH]; intros tail pos acc shift Hframed Hacc Hlen;
    [done|].
  assert (Hpow : 2 ^ (shift + 7) = 128 * 2 ^ shift)
    by (rewrite N.pow_add_r; change (2 ^ 7) with 128; lia).
  assert (Hm : Byte.to_N b mod 128 < 128) by (apply N.mod_lt; lia).
  cbn [app DecodeVarint groups_value].
  rewrite continuation_bit, land_0x7f, lor_shiftl_add by done.
  destruct bs as [|b' bs].
  - cbn [continuation_framed] in Hframed. rewrite Hframed.
    unfold mask64. rewrite N.land_ones. cbn [groups_value].
    f_equal. apply pair_equal_spec. split; [f_equal; lia|].
    unfold len. simpl. lia.
  - rewrite continuation_framed_cons in Hframed.
    apply andb_true_iff in Hframed as [Hb Hframed]. apply N.leb_le in Hb.
    destruct (Byte.to_N b <? 0x80) eqn:E; [apply N.ltb_lt in E; lia|].
    rewrite !len_cons in Hlen.
    destruct (64 <=? shift + 7) eqn:E64; [apply N.leb_le in E64; lia|].
    rewrite IH; [|done|rewrite Hpow; nia|rewrite len_cons; lia].
    rewrite Hpow, (len_cons b). f_equal. apply pair_equal_spec.
    split; [f_equal; lia|lia].
Qed.

Lemma _DecodeVarint_framed (prefix : list byte) (n : N) (tail : list byte) :
  is_varint_of prefix n -> (length prefix <= 10)%nat ->
  _DecodeVarint (prefix ++ tail) 0 = Return (n mod 2 ^ 64, len prefix).
Proof.
  intros [Hframed <-] Hlen. unfold _DecodeVarint. rewrite py_drop_0.
  rewrite DecodeVarint_framed; [|done|simpl; lia|unfold len; lia].
  f_equal. apply pair_equal_spec. split; [f_equal; lia|done].
Qed.

(** In a well-formed prefix every byte before the last is continued. *)
Lemma framed_continued (k : nat) : forall bs tail,
  continuation_framed bs = true -> (k < length bs)%nat ->
  all_continued (py_take (bs ++ tail) (N.of_nat k)) = true.
Proof.
  induction k as [|k IH]; intros bs tail Hframed Hlen.
  { by destruct (bs ++ tail). }
  destruct bs as [|b [|b' bs]]; [done|simpl in Hlen; lia|].
  rewrite continuation_framed_cons in Hframed.
  apply andb_true_iff in Hframed as [Hb Hframed].
  replace (N.of_nat (S k)) with (N.of_nat k + 1) by lia.
  cbn [app]. rewrite py_take_cons. cbn [all_continued forallb].
  rewrite Hb. cbn [andb]. apply (IH (b' :: bs)); [done|].
  cbn [length] in Hlen |- *. lia.
Qed.

Lemma _DecodeVarint_too_long (prefix tail : list byte) :
  continuation_framed prefix = true -> (10 < length prefix)%nat ->
  _DecodeVarint (prefix ++ tail) 0 =
  Raise (DecodeError "Too many bytes when decoding varint.").
Proof.
  intros Hframed Hlen. unfold _DecodeVarint. rewrite py_drop_0.
  rewrite DecodeVarint_unterminated
    by (apply (framed_continued 10); [done|lia]).
  change ((63 - 0) / 7) with 9.
  destruct (len (prefix ++ tail) <=? 9) eqn:E; [|done].
  apply N.leb_le in E. rewrite len_app in E. unfold len in E. lia.
Qed.

Lemma groups_value_bound (bs : list byte) :
  groups_value bs < 128 ^ N.of_nat (length bs).
Proof.
  induction bs as [|b bs IH]; [done|].
  cbn [groups_value length]. rewrite Nat2N.inj_succ, N.pow_succ_r'.
  rewrite land_0x7f. pose proof (N.mod_lt (Byte.to_N b) 128). lia.
Qed.

Lemma length_VarintBytes_le (k : nat) : forall n,
  n < 128 ^ N.of_nat (S k) -> (length (_VarintBytes n) <= S k)%nat.
Proof.
  induction k as [|k IH]; intros n Hn; rewrite _VarintBytes_unfold, shiftr_7.
  - change (128 ^ N.of_nat 1) with 128 in Hn.
    rewrite N.div_small by done. simpl. lia.
  - destruct (n / 128 =? 0) eqn:E; [simpl; lia|].
    cbn [length]. apply le_n_S, IH.
    rewrite (Nat2N.inj_succ (S k)), N.pow_succ_r' in Hn.
    apply N.Div0.div_lt_upper_bound. lia.
Qed.

(** ** More on the payload codec *)

Section CodecMore.
Context {dict : Type}.
Variables OneWireBus OneWireTempSensor : MessageClass dict.

Local Abbreviation _TYPE_MAPPING := (_TYPE_MAPPING OneWireBus OneWireTempSensor).
Local Abbreviation encode := (encode OneWireBus OneWireTempSensor).
Local Abbreviation decode := (decode OneWireBus OneWireTempSensor).

Lemma encode_registered (t : Z) (cls : ProtobufTranscoder) (values : dict)
    (obj : message (_MESSAGE cls)) (data : list byte) :
  _TYPE_MAPPING !! t = Some cls ->
  ParseDict (_MESSAGE cls) values = Return obj ->
  SerializeToString (_MESSAGE cls) obj = Return data ->
  encode t values = Return (_VarintBytes (len data) ++ data).
Proof.
  intros Hreg Hparse Hser. unfold Codec.encode.
  rewrite (_transcoder_registered _ _ _ _ Hreg).
  cbn [mbind result_bind]. unfold ProtobufTranscoder_encode.
  rewrite Hparse. cbn [mbind result_bind]. by rewrite Hser.
Qed.

(** X1: what [encode] returns, [decode] reads back: the parser is handed
    exactly the serialized body, so when the message class parses what it
    serializes, decoding an encoded frame gives the mapping of the encoded
    message, whatever bytes follow the frame. *)
Theorem decode_encode_round_trip (t : Z) (cls : ProtobufTranscoder)
    (values : dict) (obj : message (_MESSAGE cls)) (data : list byte) :
  _TYPE_MAPPING !! t = Some cls ->
  ParseDict (_MESSAGE cls) values = Return obj ->
  SerializeToString (_MESSAGE cls) obj = Return data ->
  ParseFromString (_MESSAGE cls) data = Return obj ->
  len data < 2 ^ 64 ->
  exists encoded,
    encode t values = Return encoded
    /\ forall trailing,
         decode t (OfBytes (encoded ++ trailing)) =
         Return (MessageToDict (_MESSAGE cls) obj).
Proof.
  intros Hreg Hparse Hser Hback Hlen.
  exists (_VarintBytes (len data) ++ data).
  split; [by apply (encode_registered t cls values obj)|].
  intros trailing. rewrite <- app_assoc.
  rewrite (decode_frame _ _ t cls) by done.
  by rewrite py_take_app, Hback.
Qed.

Lemma frames_split (a b r r' : list byte) :
  len a < 2 ^ 64 -> len b < 2 ^ 64 ->
  _VarintBytes (len a) ++ a ++ r = _VarintBytes (len b) ++ b ++ r' ->
  a = b /\ r = r'.
Proof.
  intros Ha Hb Heq.
  assert (Hlen : len a = len b).
  { pose proof (_DecodeVarint_VarintBytes (len a) (a ++ r) Ha) as H1.
    pose proof (_DecodeVarint_VarintBytes (len b) (b ++ r') Hb) as H2.
    rewrite Heq, H2 in H1. by injection H1. }
  rewrite Hlen in Heq. apply app_inv_head in Heq.
  apply app_inj_1 in Heq; [done|]. unfold len in Hlen. lia.
Qed.

(** X2: encoded frames delimit themselves: when two encoded frames, each
    followed by arbitrary bytes, give the same byte string, the frames are
    the same and so are the bytes that follow; a stream of frames splits in
    one way only. *)
Theorem encoded_frames_self_delimiting (t1 t2 : Z)
    (cls1 cls2 : ProtobufTranscoder) (values1 values2 : dict)
    (obj1 : message (_MESSAGE cls1)) (obj2 : message (_MESSAGE cls2))
    (data1 data2 e1 e2 rest1 rest2 : list byte) :
  _TYPE_MAPPING !! t1 = Some cls1 -> _TYPE_MAPPING !! t2 = Some cls2 ->
  ParseDict (_MESSAGE cls1) values1 = Return obj1 ->
  ParseDict (_MESSAGE cls2) values2 = Return obj2 ->
  SerializeToString (_MESSAGE cls1) obj1 = Return data1 ->
  SerializeToString (_MESSAGE cls2) obj2 = Return data2 ->
  len data1 < 2 ^ 64 -> len data2 < 2 ^ 64 ->
  encode t1 values1 = Return e1 -> encode t2 values2 = Return e2 ->
  e1 ++ rest1 = e2 ++ rest2 ->
  e1 = e2 /\ data1 = data2 /\ rest1 = rest2.
Proof.
  intros Hreg1 Hreg2 Hp1 Hp2 Hs1 Hs2 Hl1 Hl2 He1 He2 Heq.
  rewrite (encode_registered t1 cls1 values1 obj1 data1) in He1 by done.
  rewrite (encode_registered t2 cls2 values2 obj2 data2) in He2 by done.
  injection He1 as <-. injection He2 as <-.
  rewrite <- !app_assoc in Heq.
  destruct (frames_split data1 data2 rest1 rest2 Hl1 Hl2 Heq) as [-> ->].
  done.
Qed.

Lemma py_bytes_out_of_range (l : list Z) :
  Exists (fun x => ~ (0 <= x < 256)%Z) l ->
  py_bytes l = Raise (ValueError "bytes must be in range(0, 256)").
Proof.
  induction 1 as [x l Hx|x l _ IH]; cbn [py_bytes].
  - destruct ((0 <=? x)%Z && (x <? 256)%Z) eqn:E; [|done].
    apply andb_true_iff in E as [?%Z.leb_le ?%Z.ltb_lt]. lia.
  - destruct ((0 <=? x)%Z && (x <? 256)%Z); [|done]. by rewrite IH.
Qed.

(** X3: for a registered type tag, a list with an element outside 0..255
    makes [decode] raise ValueError, whatever the other elements are and
    before any byte is parsed; for an unregistered tag the lookup error
    comes first. *)
Theorem decode_list_out_of_range (t : Z) (l : list Z) :
  Exists (fun x => ~ (0 <= x < 256)%Z) l ->
  (is_Some (_TYPE_MAPPING !! t) ->
     decode t (OfList l) =
     Raise (ValueError "bytes must be in range(0, 256)"))
  /\ (_TYPE_MAPPING !! t = None ->
      decode t (OfList l) = Raise (no_codec t)).
Proof.
  intros Hbad. split.
  - intros [cls Hreg]. unfold Codec.decode.
    rewrite (_transcoder_registered _ _ _ _ Hreg). cbn [mbind result_bind].
    unfold ProtobufTranscoder_decode. by rewrite py_bytes_out_of_range.
  - intros Hreg. unfold Codec.decode.
    by rewrite (_transcoder_unregistered _ _ _ Hreg).
Qed.

(** X4: an encoded frame is never empty: it is the body behind a prefix
    of one to ten bytes, of one byte exactly when the body is shorter than
    128 bytes. *)
Theorem encoded_frame_length (t : Z) (cls : ProtobufTranscoder)
    (values : dict) (obj : message (_MESSAGE cls)) (data encoded : list byte) :
  _TYPE_MAPPING !! t = Some cls ->
  ParseDict (_MESSAGE cls) values = Return obj ->
  SerializeToString (_MESSAGE cls) obj = Return data ->
  len data < 2 ^ 64 ->
  encode t values = Return encoded ->
  exists k : nat,
    length encoded = (k + length data)%nat
    /\ (1 <= k <= 10)%nat
    /\ (k = 1%nat <-> len data < 128).
Proof.
  intros Hreg Hparse Hser Hlen Henc.
  rewrite (encode_registered t cls values obj data) in Henc by done.
  injection Henc as <-. exists (length (_VarintBytes (len data))).
  split; [by rewrite length_app|].
  assert (Hpos : (1 <= length (_VarintBytes (len data)))%nat).
  { unfold _VarintBytes.
    destruct (EncodeVarint_nonempty (N.land (len data) 0x7f)
                (N.shiftr (len data) 7)) as (b & rest & ->). simpl. lia. }
  split; [split; [done|]|].
  - apply (length_VarintBytes_le 9).
    apply N.lt_le_trans with (2 ^ 64); [done|]. by vm_compute.
  - rewrite _VarintBytes_unfold, shiftr_7 in *. split.
    + destruct (len data / 128 =? 0) eqn:E.
      * intros _. apply N.eqb_eq in E.
        pose proof (split_group (len data)).
        pose proof (N.mod_lt (len data) 128). lia.
      * cbn [length]. unfold _VarintBytes.
        destruct (EncodeVarint_nonempty (N.land (len data / 128) 0x7f)
                    (N.shiftr (len data / 128) 7)) as (b & rest & ->).
        simpl. lia.
    + intros Hsmall. by rewrite N.div_small by done.
Qed.

(** X5: the declared length is read modulo 2^64, from a prefix of at
    most ten bytes.  Whatever well-formed prefix denotes [n], minimal or
    not: when it has at most ten bytes, [decode] reads it as declaring
    [n mod 2^64] body bytes, and so decodes as it does behind the minimal
    prefix of [n mod 2^64]; when it has more than ten bytes, [decode]
    raises DecodeError.  A prefix that denotes 2^70 or more has more than
    ten bytes, and the minimal prefix of a number below 2^70 has at most
    ten. *)
Theorem decode_declared_length_wraps (t : Z) (cls : ProtobufTranscoder)
    (prefix : list byte) (n : N) (rest : list byte) :
  _TYPE_MAPPING !! t = Some cls ->
  is_varint_of prefix n ->
  ((length prefix <= 10)%nat ->
     decode t (OfBytes (prefix ++ rest)) =
       (obj ← ParseFromString (_MESSAGE cls) (py_take rest (n mod 2 ^ 64));
        Return (MessageToDict (_MESSAGE cls) obj))
     /\ decode t (OfBytes (prefix ++ rest)) =
        decode t (OfBytes (_VarintBytes (n mod 2 ^ 64) ++ rest)))
  /\ ((10 < length prefix)%nat ->
      decode t (OfBytes (prefix ++ rest)) =
      Raise (DecodeError "Too many bytes when decoding varint."))
  /\ (2 ^ 70 <= n -> (10 < length prefix)%nat)
  /\ (n < 2 ^ 70 -> (length (_VarintBytes n) <= 10)%nat).
Proof.
  intros Hreg Hvarint.
  assert (Hread : (length prefix <= 10)%nat ->
    decode t (OfBytes (prefix ++ rest)) =
    (obj ← ParseFromString (_MESSAGE cls) (py_take rest (n mod 2 ^ 64));
     Return (MessageToDict (_MESSAGE cls) obj))).
  { intros Hlen. unfold Codec.decode.
    rewrite (_transcoder_registered _ _ _ _ Hreg). cbn [mbind result_bind].
    unfold ProtobufTranscoder_decode. cbn [mbind result_bind].
    rewrite (_DecodeVarint_framed prefix n) by done. cbn [mbind result_bind].
    unfold py_slice. by rewrite py_drop_app. }
  split; [|split; [|split]].
  - intros Hlen. split; [by apply Hread|]. rewrite Hread by done.
    by rewrite (decode_frame _ _ t cls (n mod 2 ^ 64))
      by (done || (apply N.mod_lt; lia)).
  - intros Hlen. destruct Hvarint as [Hframed _]. unfold Codec.decode.
    rewrite (_transcoder_registered _ _ _ _ Hreg). cbn [mbind result_bind].
    unfold ProtobufTranscoder_decode. cbn [mbind result_bind].
    by rewrite _DecodeVarint_too_long.
  - intros Hn. destruct Hvarint as [_ <-].
    pose proof (groups_value_bound prefix) as Hbound.
    destruct (le_lt_dec (length prefix) 10) as [Hle|]; [|done].
    assert (128 ^ N.of_nat (length prefix) <= 128 ^ 10)
      by (apply N.pow_le_mono_r; lia).
    change (128 ^ 10) with (2 ^ 70) in *. lia.
  - intros Hn. by apply (length_VarintBytes_le 9).
Qed.

End CodecMore.

(** ** More on the datastore *)

Section DatastoreMore.
Import Datastore.
Variable value : Type.
Variable py_eq : value -> value -> bool.
Variable py_str : value -> string.

Local Abbreviation store := (MemoryDataStore value).
Local Abbreviation Query_eq := (Query_eq value py_eq).
Local Abbreviation find_by_key := (find_by_key value py_eq).
Local Abbreviation insert_unique := (insert_unique value py_eq py_str).
Local Abbreviation update := (update value py_eq).
Local Abbreviation update_unique := (update_unique value py_eq py_str).
Local Abbreviation mk := (Build_MemoryDataStore value).
Local Abbreviation docs := (_db value).

Lemma find_by_key_unfold (id_key : string) (id_val : value) (s : store) :
  find_by_key id_key id_val s =
  (Return (List.filter (Query_eq id_key id_val) (docs s)), s).
Proof. by destruct s. Qed.

Lemma insert_unfold (obj : gmap string value) (s : store) :
  insert value obj s = (Return (len (docs s) + 1), mk (docs s ++ [obj])).
Proof. by destruct s. Qed.

(** X6: a document inserted is found again: after [insert], [find_by_key]
    returns what it returned before, followed by the new document when that
    one matches, and [all] returns one document more, the new one last. *)
Theorem find_by_key_after_insert (id_key : string) (id_val : value)
    (obj : gmap string value) (s : store) :
  exists id s' before everything,
    insert value obj s = (Return id, s')
    /\ find_by_key id_key id_val s = (Return before, s)
    /\ all value s = (Return everything, s)
    /\ find_by_key id_key id_val s' =
       (Return (before ++ if Query_eq id_key id_val obj then [obj] else []), s')
    /\ all value s' = (Return (everything ++ [obj]), s').
Proof.
  exists (len (docs s) + 1), (mk (docs s ++ [obj])),
    (List.filter (Query_eq id_key id_val) (docs s)), (docs s).
  rewrite insert_unfold, !find_by_key_unfold. cbn [docs _db].
  rewrite List.filter_app. cbn [List.filter]. by destruct s.
Qed.

(** X7: [insert_multiple] is the inserts done one after the other: the
    store it leaves and the ids it returns are those of inserting the
    documents in order, and [find_by_key] gains the matching ones of them,
    in order. *)
Theorem insert_multiple_as_inserts (objects : list (gmap string value))
    (s : store) :
  exists ids s',
    insert_multiple value objects s = (Return ids, s')
    /\ insert_each value objects s = (Return <$> ids, s')
    /\ forall id_key id_val before,
         find_by_key id_key id_val s = (Return before, s) ->
         find_by_key id_key id_val s' =
         (Return (before ++ List.filter (Query_eq id_key id_val) objects), s').
Proof.
  destruct s as [db].
  exists (imap (fun i _ => next_id value db + N.of_nat i) objects),
    (mk (db ++ objects)).
  split; [done|]. split.
  - revert db. induction objects as [|obj objects IH]; intros db.
    + by rewrite app_nil_r.
    + cbn [insert_each]. rewrite insert_unfold. cbn [docs _db].
      rewrite (IH (db ++ [obj])), <- app_assoc. cbn [imap fmap list_fmap].
      f_equal. f_equal; [unfold next_id; f_equal; lia|]. f_equal.
      apply imap_ext. intros i x _. unfold next_id, compose.
      rewrite len_app. unfold len. simpl. lia.
  - intros id_key id_val before. rewrite !find_by_key_unfold.
    intros [= <-]. cbn [docs _db]. by rewrite List.filter_app.
Qed.

(** X8: [purge] empties the store: afterwards [all] and every
    [find_by_key] return nothing, and [insert_unique] accepts every document
    that has the key. *)
Theorem purge_empties (s : store) :
  exists s',
    purge value s = (Return tt, s')
    /\ all value s' = (Return [], s')
    /\ (forall id_key id_val, find_by_key id_key id_val s' = (Return [], s'))
    /\ (forall id_key obj,
          is_Some (obj !! id_key) ->
          insert_unique id_key obj s' = (Return tt, mk [obj])).
Proof.
  exists (mk []). destruct s as [db]. repeat split.
  intros id_key obj [id Hid]. rewrite insert_unique_unfold, Hid. done.
Qed.

Lemma key_unique_nil (id_key : string) : key_unique value py_eq id_key [].
Proof. intros pre doc post id H. by destruct pre. Qed.

Lemma key_unique_snoc (id_key : string) (db : list (gmap string value))
    (obj : gmap string value) :
  key_unique value py_eq id_key db ->
  (forall id, obj !! id_key = Some id ->
              existsb (Query_eq id_key id) db = false) ->
  key_unique value py_eq id_key (db ++ [obj]).
Proof.
  intros Huniq Hobj pre doc post id Heq Hdoc.
  destruct post as [|d post _] using rev_ind.
  - apply app_inj_tail in Heq as [-> ->]. by apply Hobj.
  - rewrite app_comm_cons, app_assoc in Heq.
    apply app_inj_tail in Heq as [-> _]. by apply (Huniq pre doc post id).
Qed.

Lemma insert_unique_keeps_key_unique (id_key : string)
    (obj : gmap string value) (s : store) :
  key_unique value py_eq id_key (docs s) ->
  key_unique value py_eq id_key (docs (snd (insert_unique id_key obj s))).
Proof.
  intros Huniq. rewrite insert_unique_unfold.
  destruct (obj !! id_key) as [id|] eqn:Hid; [|done].
  destruct (existsb _ _) eqn:Hfound; [done|]. cbn [snd docs _db].
  apply key_unique_snoc; [done|]. intros id' Hid'.
  assert (id' = id) as -> by congruence. done.
Qed.

Lemma key_unique_found_once (id_key : string) (id_val : value)
    (db : list (gmap string value)) :
  (forall a b, py_eq a b = true -> py_eq b a = true) ->
  (forall a b c, py_eq a b = true -> py_eq b c = true -> py_eq a c = true) ->
  key_unique value py_eq id_key db ->
  (length (List.filter (Query_eq id_key id_val) db) <= 1)%nat.
Proof.
  intros Hsym Htrans. induction db as [|obj db IH] using rev_ind; [simpl; lia|].
  intros Huniq. rewrite List.filter_app, length_app. cbn [List.filter].
  assert (Hdb : key_unique value py_eq id_key db).
  { intros pre doc post id -> Hdoc.
    apply (Huniq pre doc (post ++ [obj]) id); [|done].
    by rewrite <- app_assoc. }
  specialize (IH Hdb).
  destruct (Query_eq id_key id_val obj) eqn:Hobj; [|simpl; lia].
  assert (List.filter (Query_eq id_key id_val) db = []) as ->; [|simpl; lia].
  unfold Datastore.Query_eq in Hobj.
  destruct (obj !! id_key) as [id|] eqn:Hid; [|done].
  specialize (Huniq db obj [] id eq_refl Hid).
  destruct (List.filter _ db) as [|doc rest] eqn:Hf; [done|]. exfalso.
  assert (Hin : In doc (List.filter (Query_eq id_key id_val) db))
    by (rewrite Hf; by left).
  apply filter_In in Hin as [Hin Hdoc].
  assert (existsb (Query_eq id_key id) db = true); [|congruence].
  apply existsb_exists. exists doc. split; [done|].
  unfold Datastore.Query_eq in Hdoc |- *.
  destruct (doc !! id_key) as [w|]; [|done]. eauto.
Qed.

(** X9: [insert_unique] keeps the key unique: in a store that was filled
    from empty by calls of [insert_unique] on one key, whether they returned
    or raised, no document holds under that key a value equal to that of a
    document stored before it; when Python's equality is symmetric and
    transitive on the values, [find_by_key] on that key returns at most one
    document. *)
Theorem insert_unique_calls_keep_key_unique (id_key : string)
    (objects : list (gmap string value)) :
  let s := foldl (fun s obj => snd (insert_unique id_key obj s)) (mk []) objects in
  key_unique value py_eq id_key (docs s)
  /\ ((forall a b, py_eq a b = true -> py_eq b a = true) ->
      (forall a b c, py_eq a b = true -> py_eq b c = true -> py_eq a c = true) ->
      forall id_val, exists found,
        find_by_key id_key id_val s = (Return found, s)
        /\ (length found <= 1)%nat).
Proof.
  intros s.
  assert (Huniq : key_unique value py_eq id_key (docs s)).
  { subst s.
    assert (Hfold : forall s0, key_unique value py_eq id_key (docs s0) ->
      key_unique value py_eq id_key
        (docs (foldl (fun s obj => snd (insert_unique id_key obj s)) s0 objects))).
    { induction objects as [|obj objects IH]; intros s0 H0; [done|].
      cbn [foldl]. apply IH. by apply insert_unique_keeps_key_unique. }
    apply Hfold, key_unique_nil. }
  split; [done|]. intros Hsym Htrans id_val.
  exists (List.filter (Query_eq id_key id_val) (docs s)).
  split; [apply find_by_key_unfold|]. by apply key_unique_found_once.
Qed.

Lemma update_unfold (id_key : string) (id_val : value)
    (obj : gmap string value) (s : store) :
  update id_key id_val obj s =
  (Return (ids_where value (Query_eq id_key id_val) (docs s) 1),
   mk ((fun doc => if Query_eq id_key id_val doc then obj ∪ doc else doc)
         <$> docs s)).
Proof. by destruct s. Qed.

Lemma ids_where_length (cond : gmap string value -> bool)
    (db : list (gmap string value)) : forall first,
  length (ids_where value cond db first) = length (List.filter cond db).
Proof.
  induction db as [|doc db IH]; intros first; [done|].
  cbn [ids_where List.filter]. destruct (cond doc); cbn [length]; by rewrite IH.
Qed.



Lemma filter_merged_moved (id_key : string) (id_val new : value)
    (obj : gmap string value) (db : list (gmap string value)) :
  obj !! id_key = Some new -> py_eq new id_val = false ->
  List.filter (Query_eq id_key id_val)
    ((fun doc => if Query_eq id_key id_val doc then obj ∪ doc else doc) <$> db)
  = [].
Proof.
  intros Hnew Hne. induction db as [|doc db IH]; [done|].
  rewrite fmap_cons. cbn [List.filter].
  destruct (Query_eq id_key id_val doc) eqn:Hq.
  - assert (Query_eq id_key id_val (obj ∪ doc) = false) as ->; [|exact IH].
    unfold Datastore.Query_eq. by rewrite (lookup_union_Some_l _ _ _ _ Hnew).
  - rewrite Hq. exact IH.
Qed.

Lemma filter_merged_kept (id_key : string) (id_val : value)
    (obj : gmap string value) (db : list (gmap string value)) :
  obj !! id_key = None ->
  List.filter (Query_eq id_key id_val)
    ((fun doc => if Query_eq id_key id_val doc then obj ∪ doc else doc) <$> db)
  = (fun doc => obj ∪ doc) <$> List.filter (Query_eq id_key id_val) db.
Proof.
  intros Hnone. induction db as [|doc db IH]; [done|].
  rewrite fmap_cons. cbn [List.filter].
  destruct (Query_eq id_key id_val doc) eqn:Hq.
  - assert (Query_eq id_key id_val (obj ∪ doc) = true) as ->.
    { unfold Datastore.Query_eq in Hq |- *.
      by rewrite lookup_union_r by done. }
    by rewrite fmap_cons, IH.
  - rewrite Hq. exact IH.
Qed.

(** X11: after [update], the documents found under [id_key == id_val] are
    the same ones, merged with [obj], when [obj] does not carry [id_key];
    none is found any more when [obj] carries under [id_key] a value that
    is not equal to [id_val]. *)
Theorem find_by_key_after_update (id_key : string) (id_val : value)
    (obj : gmap string value) (s : store) :
  exists ids s' before,
    update id_key id_val obj s = (Return ids, s')
    /\ find_by_key id_key id_val s = (Return before, s)
    /\ (obj !! id_key = None ->
        find_by_key id_key id_val s' =
        (Return ((fun doc => obj ∪ doc) <$> before), s'))
    /\ (forall new, obj !! id_key = Some new -> py_eq new id_val = false ->
        find_by_key id_key id_val s' = (Return [], s')).
Proof.
  eexists _, _, _. split; [apply update_unfold|].
  split; [apply find_by_key_unfold|]. split.
  - intros Hnone. rewrite find_by_key_unfold. cbn [docs _db].
    by rewrite filter_merged_kept.
  - intros new Hnew Hne. rewrite find_by_key_unfold. cbn [docs _db].
    by rewrite (filter_merged_moved id_key id_val new).
Qed.

Lemma ids_where_none (cond : gmap string value -> bool)
    (db : list (gmap string value)) : forall first,
  existsb cond db = false -> ids_where value cond db first = [].
Proof.
  induction db as [|doc db IH]; intros first H; [done|].
  cbn [existsb ids_where] in *. apply orb_false_iff in H as [-> H]. by apply IH.
Qed.

Lemma ids_where_some (cond : gmap string value -> bool)
    (db : list (gmap string value)) : forall first,
  existsb cond db = true -> ids_where value cond db first <> [].
Proof.
  induction db as [|doc db IH]; intros first H; [done|].
  cbn [existsb ids_where] in *. destruct (cond doc); [done|]. by apply IH.
Qed.

Lemma merge_none (cond : gmap string value -> bool) (obj : gmap string value)
    (db : list (gmap string value)) :
  existsb cond db = false ->
  (fun doc => if cond doc then obj ∪ doc else doc) <$> db = db.
Proof.
  induction db as [|doc db IH]; intros H; [done|].
  cbn [existsb] in H. apply orb_false_iff in H as [Hd H].
  by rewrite fmap_cons, Hd, IH.
Qed.

Lemma merge_one (cond : gmap string value -> bool) (obj : gmap string value)
    (pre post : list (gmap string value)) (doc : gmap string value) :
  existsb cond pre = false -> cond doc = true -> existsb cond post = false ->
  (fun doc => if cond doc then obj ∪ doc else doc) <$> (pre ++ doc :: post)
  = pre ++ (obj ∪ doc) :: post.
Proof.
  intros Hpre Hdoc Hpost.
  by rewrite fmap_app, fmap_cons, Hdoc, !merge_none.
Qed.

Lemma upsert_unfold (obj : gmap string value)
    (cond : gmap string value -> bool) (db : list (gmap string value)) :
  snd (db_upsert value obj cond db) =
  if existsb cond db
  then (fun doc => if cond doc then obj ∪ doc else doc) <$> db
  else db ++ [obj].
Proof.
  unfold db_upsert, db_bind, db_update, db_insert_id, db_lift.
  destruct (existsb cond db) eqn:E.
  - pose proof (ids_where_some cond db 1 E).
    by destruct (ids_where value cond db 1).
  - by rewrite (ids_where_none cond db 1 E), merge_none.
Qed.

Lemma upsert_returns (obj : gmap string value)
    (cond : gmap string value -> bool) (db : list (gmap string value)) :
  returns (fst (db_upsert value obj cond db)) = true.
Proof.
  unfold db_upsert, db_bind, db_update, db_insert_id, db_lift.
  by destruct (ids_where value cond db 1).
Qed.

Lemma update_unique_unfold (id_key : string) (id_val : value)
    (obj : gmap string value) (unique_key : option string) (s : store) :
  update_unique id_key id_val obj unique_key s =
  if len (List.filter (Query_eq id_key id_val) (docs s)) <=? 1 then
    match unique_key_check value py_eq py_str obj unique_key (docs s) with
    | Some e => (Raise e, s)
    | None =>
        (Return tt,
         mk (if existsb (Query_eq id_key id_val) (docs s)
             then (fun doc => if Query_eq id_key id_val doc
                              then obj ∪ doc else doc) <$> docs s
             else docs s ++ [obj]))
    end
  else (Raise (AssertionError
                 ("Multiple documents with " +:+ id_key +:+ "="
                  +:+ py_str id_val +:+ " exist")), s).
Proof.
  destruct s as [db]. cbn [docs _db].
  rewrite <- upsert_unfold.
  pose proof (upsert_returns obj (Query_eq id_key id_val) db) as Hret.
  unfold Datastore.update_unique, _do_with_db, update_unique_func,
    unique_key_check, db_bind, db_count, db_lift, py_assert, getitem,
    db_contains.
  cbn [_db].
  destruct (len (List.filter (Query_eq id_key id_val) db) <=? 1); [|done].
  destruct unique_key as [u|];
    [destruct (obj !! u) as [uid|];
       [destruct (existsb (Query_eq u uid) db)|]|];
    try done; cbn [negb];
    destruct (db_upsert value obj (Query_eq id_key id_val) db) as [[ids|e] db'];
    done.
Qed.

Lemma filter_nil_existsb {A} (f : A -> bool) (l : list A) :
  List.filter f l = [] <-> existsb f l = false.
Proof.
  induction l as [|x l IH]; [done|]. cbn [List.filter existsb].
  destruct (f x); [done|]. by rewrite IH.
Qed.

Lemma len_leb_1 {A} (l : list A) :
  (len l <=? 1) = true <-> (length l <= 1)%nat.
Proof. rewrite N.leb_le. unfold len. lia. Qed.

(** X12: the outcomes of [update_unique].  It raises AssertionError when
    more than one document matches [id_key == id_val], KeyError when
    [unique_key] is given and [obj] lacks it, AssertionError when a stored
    document holds a value equal to [obj[unique_key]]; whenever it raises,
    the store is as before.  Otherwise it appends [obj] when no document
    matches, and merges [obj] into the one document that matches, leaving
    the others as they are. *)
Theorem update_unique_outcomes (id_key : string) (id_val : value)
    (obj : gmap string value) (unique_key : option string) (s : store) :
  let q := Query_eq id_key id_val in
  let free :=
    unique_key = None
    \/ exists u uid, unique_key = Some u /\ obj !! u = Some uid
        /\ forall doc w, doc ∈ docs s -> doc !! u = Some w ->
                         py_eq w uid = false in
  ((1 < length (List.filter q (docs s)))%nat ->
     exists msg, update_unique id_key id_val obj unique_key s =
                 (Raise (AssertionError msg), s))
  /\ ((length (List.filter q (docs s)) <= 1)%nat ->
      forall u, unique_key = Some u -> obj !! u = None ->
      update_unique id_key id_val obj unique_key s = (Raise (KeyError u), s))
  /\ ((length (List.filter q (docs s)) <= 1)%nat ->
      forall u uid doc w,
        unique_key = Some u -> obj !! u = Some uid ->
        doc ∈ docs s -> doc !! u = Some w -> py_eq w uid = true ->
        exists msg, update_unique id_key id_val obj unique_key s =
                    (Raise (AssertionError msg), s))
  /\ (List.filter q (docs s) = [] -> free ->
      update_unique id_key id_val obj unique_key s =
      (Return tt, mk (docs s ++ [obj])))
  /\ (forall pre doc post,
        docs s = pre ++ doc :: post -> q doc = true ->
        List.filter q pre = [] -> List.filter q post = [] -> free ->
        update_unique id_key id_val obj unique_key s =
        (Return tt, mk (pre ++ (obj ∪ doc) :: post)))
  /\ (forall r s',
        update_unique id_key id_val obj unique_key s = (r, s') ->
        raises r = true -> s' = s).
Proof.
  intros q free. rewrite update_unique_unfold. fold q.
  assert (Hfree : free -> unique_key_check value py_eq py_str obj unique_key
                            (docs s) = None).
  { intros [->|(u & uid & -> & Hu & Hnone)]; [done|].
    unfold unique_key_check. rewrite Hu.
    assert (existsb (Query_eq u uid) (docs s) = false) as ->; [|done].
    apply not_true_is_false. intros (doc & Hin & Hq)%existsb_exists.
    apply list_elem_of_In in Hin. unfold Datastore.Query_eq in Hq.
    destruct (doc !! u) as [w|] eqn:E; [|done].
    by rewrite (Hnone doc w Hin E) in Hq. }
  split; [|split; [|split; [|split; [|split]]]].
  - intros Hmany. eexists.
    destruct (len (List.filter q (docs s)) <=? 1) eqn:E; [|done].
    apply len_leb_1 in E. lia.
  - intros Hfew u -> Hu. apply len_leb_1 in Hfew. rewrite Hfew.
    unfold unique_key_check. by rewrite Hu.
  - intros Hfew u uid doc w -> Hu Hin Hdoc Heq. apply len_leb_1 in Hfew.
    rewrite Hfew. unfold unique_key_check. rewrite Hu.
    assert (existsb (Query_eq u uid) (docs s) = true) as ->; [|by eexists].
    apply existsb_exists. exists doc. split; [by apply list_elem_of_In|].
    unfold Datastore.Query_eq. by rewrite Hdoc.
  - intros Hnone Hf. rewrite Hnone, (Hfree Hf).
    apply filter_nil_existsb in Hnone. by rewrite Hnone.
  - intros pre doc post Hdb Hdoc Hpre Hpost Hf. rewrite (Hfree Hf), Hdb.
    rewrite List.filter_app. cbn [List.filter]. rewrite Hdoc, Hpre, Hpost.
    cbn [app len length N.of_nat N.leb N.compare Pos.of_succ_nat Pos.compare
         Pos.compare_cont].
    rewrite existsb_app. cbn [existsb]. rewrite Hdoc, orb_true_r.
    apply filter_nil_existsb in Hpre, Hpost. by rewrite merge_one.
  - intros r s'. destruct (len (List.filter q (docs s)) <=? 1);
      [destruct (unique_key_check _ _ _ _ _ _)|]; intros [= <- <-]; done.
Qed.

(** X13: with [unique_key] equal to [id_key] and [obj] holding [id_val]
    under it, [update_unique] never changes a stored document: it does what
    [insert_unique] does, appending [obj] when [find_by_key] finds nothing
    under the key and raising AssertionError, the store as before, when it
    finds something. *)
Theorem update_unique_on_own_key (id_key : string) (id_val : value)
    (obj : gmap string value) (s : store) :
  obj !! id_key = Some id_val ->
  exists found,
    find_by_key id_key id_val s = (Return found, s)
    /\ (found = [] ->
        update_unique id_key id_val obj (Some id_key) s =
          (Return tt, mk (docs s ++ [obj]))
        /\ insert_unique id_key obj s = (Return tt, mk (docs s ++ [obj])))
    /\ (found <> [] ->
        exists msg msg',
          update_unique id_key id_val obj (Some id_key) s =
            (Raise (AssertionError msg), s)
          /\ insert_unique id_key obj s = (Raise (AssertionError msg'), s)).
Proof.
  intros Hobj. eexists. split; [apply find_by_key_unfold|].
  rewrite update_unique_unfold, insert_unique_unfold. unfold unique_key_check.
  rewrite Hobj. split.
  - intros Hnone. rewrite Hnone. apply filter_nil_existsb in Hnone.
    by rewrite Hnone.
  - intros Hsome.
    assert (He : existsb (Query_eq id_key id_val) (docs s) = true).
    { apply not_false_is_true. by intros ?%filter_nil_existsb. }
    rewrite He. destruct (len _ <=? 1); by eexists _, _.
Qed.

(** X14: a document that [insert_unique] accepted is the one document
    found under its key value afterwards, provided the value equals itself,
    and inserting it again raises AssertionError and leaves the store as it
    is. *)
Theorem insert_unique_then_find (id_key : string) (obj : gmap string value)
    (id : value) (s s' : store) :
  insert_unique id_key obj s = (Return tt, s') ->
  obj !! id_key = Some id ->
  py_eq id id = true ->
  find_by_key id_key id s' = (Return [obj], s')
  /\ exists msg, insert_unique id_key obj s' = (Raise (AssertionError msg), s').
Proof.
  rewrite insert_unique_unfold. intros Hins Hobj Hrefl. rewrite Hobj in Hins.
  destruct (existsb (Query_eq id_key id) (docs s)) eqn:Hfound; [done|].
  injection Hins as <-.
  assert (Hq : Query_eq id_key id obj = true)
    by (unfold Datastore.Query_eq; by rewrite Hobj).
  split.
  - rewrite find_by_key_unfold. cbn [docs _db]. rewrite List.filter_app.
    apply filter_nil_existsb in Hfound. rewrite Hfound.
    cbn [List.filter app]. by rewrite Hq.
  - rewrite insert_unique_unfold, Hobj. cbn [docs _db].
    rewrite existsb_app. cbn [existsb]. rewrite Hq, orb_true_r. by eexists.
Qed.

(** X15: [update] is idempotent on the store: the same update run a second
    time changes nothing more, whether the updated documents still match
    or not. *)
Theorem update_twice (id_key : string) (id_val : value)
    (obj : gmap string value) (s : store) :
  snd (update id_key id_val obj (snd (update id_key id_val obj s))) =
  snd (update id_key id_val obj s).
Proof.
  rewrite !update_unfold. cbn [snd docs _db]. f_equal.
  destruct s as [db]. cbn [_db]. unfold TinyDB in *.
  rewrite <- list_fmap_compose. apply list_fmap_ext. intros i doc _.
  unfold compose. destruct (Query_eq id_key id_val doc) eqn:Hq; [|by rewrite Hq].
  destruct (Query_eq id_key id_val (obj ∪ doc)); [|done].
  by rewrite (assoc_L (∪)), (idemp_L (∪)).
Qed.

End DatastoreMore.

(** ** Concrete runs of the further properties *)

Lemma decode_encode_round_trip_witness :
  exists encoded,
    Sample.encode 6 {[ "offset"%string := 300%Z ]} = Return encoded
    /\ forall trailing,
         Sample.decode 6 (OfBytes (encoded ++ trailing)) =
         Return {[ "offset"%string := 300%Z ]}.
Proof.
  apply (decode_encode_round_trip Sample.Message Sample.Message 6
           (OneWireTempSensorTranscoder Sample.Message)
           {[ "offset"%string := 300%Z ]} 300 [x08; xac; x02]).
  - reflexivity.
  - reflexivity.
  - reflexivity.
  - reflexivity.
  - reflexivity.
Defined.

Lemma encoded_frames_self_delimiting_witness :
  [x03; x08; xac; x02] = [x03; x08; xac; x02]
  /\ [x08; xac; x02] = [x08; xac; x02]
  /\ [xff; x00] = [xff; x00].
Proof.
  apply (encoded_frames_self_delimiting Sample.Message Sample.Message 6 10
           (OneWireTempSensorTranscoder Sample.Message)
           (OneWireBusTranscoder Sample.Message)
           {[ "offset"%string := 300%Z ]} {[ "offset"%string := 300%Z ]}
           300 300 [x08; xac; x02] [x08; xac; x02]
           [x03; x08; xac; x02] [x03; x08; xac; x02] [xff; x00] [xff; x00]);
    reflexivity.
Defined.

Lemma decode_list_out_of_range_witness :
  Sample.decode 6 (OfList [3; 256; 8]%Z) =
    Raise (ValueError "bytes must be in range(0, 256)")
  /\ Sample.decode 999 (OfList [3; 256; 8]%Z) =
     Raise (KeyError "No codec found for object type [999]").
Proof.
  destruct (decode_list_out_of_range Sample.Message Sample.Message 6
              [3; 256; 8]%Z) as [H6 _].
  { apply Exists_cons_tl, Exists_cons_hd. lia. }
  destruct (decode_list_out_of_range Sample.Message Sample.Message 999
              [3; 256; 8]%Z) as [_ H999].
  { apply Exists_cons_tl, Exists_cons_hd. lia. }
  split.
  - apply H6. eexists. reflexivity.
  - apply H999. reflexivity.
Defined.

Lemma encoded_frame_length_witness :
  exists k : nat,
    length [x03; x08; xac; x02] = (k + length [x08; xac; x02])%nat
    /\ (1 <= k <= 10)%nat
    /\ (k = 1%nat <-> len [x08; xac; x02] < 128).
Proof.
  apply (encoded_frame_length Sample.Message Sample.Message 6
           (OneWireTempSensorTranscoder Sample.Message)
           {[ "offset"%string := 300%Z ]} 300); reflexivity.
Defined.

Lemma decode_declared_length_wraps_witness :
  Sample.decode 6 (OfBytes (_VarintBytes (2 ^ 64 + 2) ++ [x08; x01; xff])) =
    Sample.decode 6 (OfBytes (_VarintBytes 2 ++ [x08; x01; xff]))
  /\ Sample.decode 6 (OfBytes ((repeat x80 9 ++ [x00]) ++ [x08; x01])) =
     Return ∅
  /\ Sample.decode 6 (OfBytes ((repeat x80 10 ++ [x00]) ++ [x08; x01])) =
     Raise (DecodeError "Too many bytes when decoding varint.")
  /\ Sample.decode 6 (OfBytes (_VarintBytes (2 ^ 70) ++ [x08; x01])) =
     Raise (DecodeError "Too many bytes when decoding varint.").
Proof.
  destruct (decode_declared_length_wraps Sample.Message Sample.Message 6
              (OneWireTempSensorTranscoder Sample.Message)
              (_VarintBytes (2 ^ 64 + 2)) (2 ^ 64 + 2) [x08; x01; xff])
    as ([_ Hwrap] & _); [reflexivity|by vm_compute|vm_compute; lia|].
  destruct (decode_declared_length_wraps Sample.Message Sample.Message 6
              (OneWireTempSensorTranscoder Sample.Message)
              (repeat x80 9 ++ [x00]) 0 [x08; x01])
    as ([Hzero _] & _); [reflexivity|by vm_compute|vm_compute; lia|].
  destruct (decode_declared_length_wraps Sample.Message Sample.Message 6
              (OneWireTempSensorTranscoder Sample.Message)
              (repeat x80 10 ++ [x00]) 0 [x08; x01])
    as (_ & Hpadded & _); [reflexivity|by vm_compute|].
  destruct (decode_declared_length_wraps Sample.Message Sample.Message 6
              (OneWireTempSensorTranscoder Sample.Message)
              (_VarintBytes (2 ^ 70)) (2 ^ 70) [x08; x01])
    as (_ & Hlong & Hmany & _); [reflexivity|by vm_compute|].
  split; [exact Hwrap|]. split; [exact (eq_trans Hzero eq_refl)|].
  split; [apply Hpadded; vm_compute; lia|].
  apply Hlong, Hmany. vm_compute. discriminate.
Defined.

(** The datastore on the fixtures of [test_datastore.py]. *)

Lemma insert_multiple_as_inserts_witness :
  exists ids s',
    Datastore.insert_multiple _ (replicate 3 Datastore.Fixture.obj)
      Datastore.Fixture.empty_store = (Return ids, s')
    /\ ids = [1; 2; 3]
    /\ Datastore.find_by_key _ Datastore.Fixture.json_eqb "service_id"
         (Datastore.Fixture.JStr "pancakes") s' =
       (Return (replicate 3 Datastore.Fixture.obj), s').
Proof.
  destruct (insert_multiple_as_inserts _ Datastore.Fixture.json_eqb
              (replicate 3 Datastore.Fixture.obj)
              Datastore.Fixture.empty_store) as (ids & s' & Hins & _ & Hfind).
  exists ids, s'. split; [exact Hins|].
  split; [by injection Hins as <- _|].
  apply (Hfind "service_id"%string (Datastore.Fixture.JStr "pancakes") []).
  reflexivity.
Defined.

Lemma purge_empties_witness :
  exists s',
    Datastore.purge _ Datastore.Fixture.id_store = (Return tt, s')
    /\ Datastore.insert_unique _ Datastore.Fixture.json_eqb
         Datastore.Fixture.json_str "id" (Datastore.Fixture.id_doc 6) s' =
       (Return tt, {| Datastore._db := [Datastore.Fixture.id_doc 6] |}).
Proof.
  destruct (purge_empties _ Datastore.Fixture.json_eqb
              Datastore.Fixture.json_str Datastore.Fixture.id_store)
    as (s' & Hpurge & _ & _ & Hins).
  exists s'. split; [exact Hpurge|].
  apply Hins. exists (Datastore.Fixture.JInt 6). vm_compute. reflexivity.
Defined.

Lemma insert_unique_calls_keep_key_unique_witness :
  let s := foldl (fun s obj => snd (Datastore.insert_unique Z Z.eqb pretty "id" obj s))
             {| Datastore._db := [] |}
             [{[ "id"%string := 6%Z ]}; {[ "id"%string := 7%Z ]};
              {[ "id"%string := 6%Z ]}; {[ "name"%string := 1%Z ]}] in
  exists found,
    Datastore.find_by_key Z Z.eqb "id" 6%Z s = (Return found, s)
    /\ (length found <= 1)%nat.
Proof.
  intros s.
  apply (insert_unique_calls_keep_key_unique Z Z.eqb pretty "id"
           [{[ "id"%string := 6%Z ]}; {[ "id"%string := 7%Z ]};
            {[ "id"%string := 6%Z ]}; {[ "name"%string := 1%Z ]}]).
  - intros a b H. apply Z.eqb_eq in H. apply Z.eqb_eq. lia.
  - intros a b c H1 H2. apply Z.eqb_eq in H1, H2. apply Z.eqb_eq. lia.
Defined.


Lemma find_by_key_after_update_witness :
  exists ids s',
    Datastore.update _ Datastore.Fixture.json_eqb "id" (Datastore.Fixture.JInt 6)
      (Datastore.Fixture.id_doc 101) Datastore.Fixture.id_store = (Return ids, s')
    /\ Datastore.find_by_key _ Datastore.Fixture.json_eqb "id"
         (Datastore.Fixture.JInt 6) s' = (Return [], s').
Proof.
  destruct (find_by_key_after_update _ Datastore.Fixture.json_eqb
              "id" (Datastore.Fixture.JInt 6) (Datastore.Fixture.id_doc 101)
              Datastore.Fixture.id_store) as (ids & s' & before & Hup & _ & _ & Hgone).
  exists ids, s'. split; [exact Hup|].
  apply (Hgone (Datastore.Fixture.JInt 101)); vm_compute; reflexivity.
Defined.

Lemma update_unique_outcomes_witness :
  let update_unique :=
    Datastore.update_unique _ Datastore.Fixture.json_eqb Datastore.Fixture.json_str in
  update_unique "id" (Datastore.Fixture.JInt 8)
    {[ "something"%string := Datastore.Fixture.JStr "different" ]} None
    {| Datastore._db := [Datastore.Fixture.id_doc 7; Datastore.Fixture.id_doc 8] |} =
    (Return tt,
     {| Datastore._db :=
          [Datastore.Fixture.id_doc 7;
           {[ "something"%string := Datastore.Fixture.JStr "different" ]}
             ∪ Datastore.Fixture.id_doc 8] |})
  /\ update_unique "id" (Datastore.Fixture.JInt 2) (Datastore.Fixture.id_doc 8)
       (Some "id"%string)
       {| Datastore._db := [Datastore.Fixture.id_doc 7; Datastore.Fixture.id_doc 8] |} =
     (Raise (AssertionError "A document already exists with id=8"),
      {| Datastore._db := [Datastore.Fixture.id_doc 7; Datastore.Fixture.id_doc 8] |})
  /\ update_unique "id" (Datastore.Fixture.JInt 2) (Datastore.Fixture.id_doc 8)
       (Some "name"%string)
       {| Datastore._db := [Datastore.Fixture.id_doc 7; Datastore.Fixture.id_doc 8] |} =
     (Raise (KeyError "name"),
      {| Datastore._db := [Datastore.Fixture.id_doc 7; Datastore.Fixture.id_doc 8] |}).
Proof.
  intros update_unique.
  destruct (update_unique_outcomes _ Datastore.Fixture.json_eqb
              Datastore.Fixture.json_str "id" (Datastore.Fixture.JInt 8)
              {[ "something"%string := Datastore.Fixture.JStr "different" ]} None
              {| Datastore._db := [Datastore.Fixture.id_doc 7; Datastore.Fixture.id_doc 8] |})
    as (_ & _ & _ & _ & Hone & _).
  destruct (update_unique_outcomes _ Datastore.Fixture.json_eqb
              Datastore.Fixture.json_str "id" (Datastore.Fixture.JInt 2)
              (Datastore.Fixture.id_doc 8) (Some "id"%string)
              {| Datastore._db := [Datastore.Fixture.id_doc 7; Datastore.Fixture.id_doc 8] |})
    as (_ & _ & Htaken & _).
  destruct (update_unique_outcomes _ Datastore.Fixture.json_eqb
              Datastore.Fixture.json_str "id" (Datastore.Fixture.JInt 2)
              (Datastore.Fixture.id_doc 8) (Some "name"%string)
              {| Datastore._db := [Datastore.Fixture.id_doc 7; Datastore.Fixture.id_doc 8] |})
    as (_ & Hkey & _).
  split; [|split].
  - apply (Hone [Datastore.Fixture.id_doc 7] (Datastore.Fixture.id_doc 8) []);
      try reflexivity. by left.
  - destruct (Htaken ltac:(vm_compute; lia) "id"%string (Datastore.Fixture.JInt 8)
                (Datastore.Fixture.id_doc 8) (Datastore.Fixture.JInt 8)
                eq_refl eq_refl ltac:(apply list_elem_of_further, list_elem_of_here)
                eq_refl eq_refl) as [msg Hmsg].
    reflexivity.
  - apply (Hkey ltac:(vm_compute; lia) "name"%string); reflexivity.
Defined.

Lemma update_unique_on_own_key_witness :
  exists found,
    Datastore.find_by_key _ Datastore.Fixture.json_eqb "id"
      (Datastore.Fixture.JInt 6) Datastore.Fixture.id_store
    = (Return found, Datastore.Fixture.id_store)
    /\ found = [Datastore.Fixture.id_doc 6]
    /\ exists msg,
         Datastore.update_unique _ Datastore.Fixture.json_eqb
           Datastore.Fixture.json_str "id" (Datastore.Fixture.JInt 6)
           (Datastore.Fixture.id_doc 6) (Some "id"%string)
           Datastore.Fixture.id_store =
         (Raise (AssertionError msg), Datastore.Fixture.id_store).
Proof.
  destruct (update_unique_on_own_key _ Datastore.Fixture.json_eqb
              Datastore.Fixture.json_str "id" (Datastore.Fixture.JInt 6)
              (Datastore.Fixture.id_doc 6) Datastore.Fixture.id_store eq_refl)
    as (found & Hfind & _ & Hsome).
  exists found. split; [exact Hfind|].
  assert (Hf : found = [Datastore.Fixture.id_doc 6]) by (by injection Hfind as <-).
  split; [exact Hf|].
  destruct (Hsome ltac:(rewrite Hf; discriminate)) as (msg & msg' & Hup & _).
  by exists msg.
Defined.

Lemma insert_unique_then_find_witness :
  Datastore.find_by_key _ Datastore.Fixture.json_eqb "service_id"
    (Datastore.Fixture.JStr "pancakes")
    {| Datastore._db := [Datastore.Fixture.obj] |} =
  (Return [Datastore.Fixture.obj], {| Datastore._db := [Datastore.Fixture.obj] |})
  /\ exists msg,
       Datastore.insert_unique _ Datastore.Fixture.json_eqb
         Datastore.Fixture.json_str "service_id" Datastore.Fixture.obj
         {| Datastore._db := [Datastore.Fixture.obj] |} =
       (Raise (AssertionError msg), {| Datastore._db := [Datastore.Fixture.obj] |}).
Proof.
  apply (insert_unique_then_find _ Datastore.Fixture.json_eqb
           Datastore.Fixture.json_str "service_id" Datastore.Fixture.obj
           (Datastore.Fixture.JStr "pancakes") Datastore.Fixture.empty_store).
  - reflexivity.
  - reflexivity.
  - reflexivity.
Defined.
